(** * VehicleMap: route playback and speed estimation

    A shallow embedding of [src/components/VehicleMap.jsx]: the planar
    distance and speed estimators, the builtins they call
    ([Number.prototype.toFixed], [Date.prototype.getTime]), and the
    playback component seen as a transition system over its React
    state, its interval reference and the browser's set of live
    interval timers.

    JavaScript numbers are IEEE 754 binary64 values.  They are modelled
    by [spec_float] at precision 53 and maximal exponent 1024, with the
    arithmetic of [SpecFloat], which rounds to nearest, ties to even. *)

From Stdlib Require Import ZArith Lia Bool List String Ascii.
From Stdlib Require Import SpecFloat DecimalString.
From Stdlib Require DecimalN.
From stdpp Require Import base option list gmap.

Local Open Scope Z_scope.

(** ** JavaScript numbers *)

Module JsNumber.

Definition prec : Z := 53.
Definition emax : Z := 1024.

Definition number : Type := spec_float.

Definition NaN : number := S754_nan.
Definition add : number -> number -> number := SFadd prec emax.
Definition sub : number -> number -> number := SFsub prec emax.
Definition mul : number -> number -> number := SFmul prec emax.
Definition div : number -> number -> number := SFdiv prec emax.
Definition sqrt : number -> number := SFsqrt prec emax.

(** [x <= y]; false as soon as one side is NaN. *)
Definition leb : number -> number -> bool := SFleb.

(** The number denoted by an integer literal, and more generally the
    binary64 value nearest to an integer. *)
Definition ofZ (z : Z) : number := binary_normalize prec emax z 0 false.

(** The number denoted by the decimal literal [n / 10^k]: both operands
    are exact when they are below 2^53, so the quotient is the binary64
    value nearest to the literal. *)
Definition ofDecimal (n : Z) (k : Z) : number := div (ofZ n) (ofZ (10 ^ k)).

Definition isFinite (x : number) : bool :=
  match x with
  | S754_zero _ | S754_finite _ _ _ => true
  | S754_infinity _ | S754_nan => false
  end.

Definition isNaN (x : number) : bool :=
  match x with S754_nan => true | _ => false end.

(** [0 <= x]: both zeros, the positive finite numbers and [+Infinity]. *)
Definition nonNegative (x : number) : bool := leb (ofZ 0) x.

(** *** [Number.prototype.toFixed]

    The finite number [(-1)^s * m * 2^e] is a rational, so the integer
    [n] of the standard ("let n be an integer for which n / 10^f - x is
    as close to zero as possible; if there are two such n, pick the
    larger") is computed exactly. *)

Definition decimalDigits (n : Z) : string :=
  NilZero.string_of_uint (N.to_uint (Z.to_N n)).

Fixpoint zeros (k : nat) : string :=
  match k with
  | O => EmptyString
  | S k' => String "0" (zeros k')
  end.

(** [floor (m * 2^e * 10^f + 1/2)] *)
Definition scaledNearest (m : positive) (e : Z) (f : Z) : Z :=
  let a := Zpos m * 10 ^ f in
  if 0 <=? e then a * 2 ^ e else (2 * a + 2 ^ (- e)) / 2 ^ (1 - e).

(** [floor (m * 2^e / 10^p)], for [0 <= p] *)
Definition scaledFloor (m : positive) (e : Z) (p : Z) : Z :=
  if 0 <=? e then (Zpos m * 2 ^ e) / 10 ^ p else Zpos m / (2 ^ (- e) * 10 ^ p).

(** [10^21 <= m * 2^e] *)
Definition atLeast1e21 (m : positive) (e : Z) : bool :=
  if 0 <=? e then 10 ^ 21 <=? Zpos m * 2 ^ e else 10 ^ 21 * 2 ^ (- e) <=? Zpos m.

Definition fixedNotation (n : Z) (f : nat) : string :=
  let m := decimalDigits n in
  match f with
  | O => m
  | _ =>
      let m := if (String.length m <=? f)%nat
               then (zeros (f + 1 - String.length m) ++ m)%string else m in
      let k := String.length m in
      (substring 0 (k - f) m ++ "." ++ substring (k - f) f m)%string
  end.

(** [Number::toString] on a number of magnitude at least 10^21: the
    shortest decimal [s * 10^(n-k)] that reads back as [m * 2^e], in
    exponential notation.  All comparisons are made in units of
    [2^(e-2)], in which the number is [4m] and the midpoints towards its
    two neighbours are [4m+2] and [4m-2] ([4m-1] at the lower end of a
    binade). *)
Section Shortest.
Variables (m : positive) (e : Z).

Let n : Z := Z.of_nat (String.length (decimalDigits (scaledFloor m e 0))).
Let a : Z := Z.max 0 (2 - e).
Let b : Z := Z.max 0 (e - 2).
Let upper : Z := (4 * Zpos m + 2) * 2 ^ b.
Let lower : Z :=
  (if Zpos m =? 2 ^ (prec - 1) then 4 * Zpos m - 1 else 4 * Zpos m - 2) * 2 ^ b.
Let exact : Z := 4 * Zpos m * 2 ^ b.

Definition readsBack (s k : Z) : bool :=
  let v := s * 10 ^ (n - k) * 2 ^ a in
  (10 ^ (k - 1) <=? s) && (s <? 10 ^ k) &&
  (if Z.even (Zpos m) then (lower <=? v) && (v <=? upper)
   else (lower <? v) && (v <? upper)).

Definition distance (s k : Z) : Z :=
  Z.abs (s * 10 ^ (n - k) * 2 ^ a - exact).

Definition shortestAt (k : Z) : option Z :=
  let s0 := scaledFloor m e (n - k) in
  let s1 := s0 + 1 in
  match readsBack s0 k, readsBack s1 k with
  | true, true =>
      match distance s0 k ?= distance s1 k with
      | Lt => Some s0
      | Gt => Some s1
      | Eq => Some (if Z.even s0 then s0 else s1)
      end
  | true, false => Some s0
  | false, true => Some s1
  | false, false => None
  end.

Fixpoint shortestFrom (fuel : nat) (k : Z) : Z * Z :=
  match fuel with
  | O => (scaledFloor m e (n - k), k)
  | S fuel' =>
      match shortestAt k with
      | Some s => (s, k)
      | None => shortestFrom fuel' (k + 1)
      end
  end.

Definition exponentialNotation : string :=
  let '(s, _) := shortestFrom 17 1 in
  let d := decimalDigits s in
  let mant :=
    match d with
    | String c EmptyString => d
    | String c rest => (String c "." ++ rest)%string
    | EmptyString => d
    end in
  (mant ++ "e+" ++ decimalDigits (n - 1))%string.
End Shortest.

Definition toFixed (x : number) (fractionDigits : nat) : string :=
  match x with
  | S754_nan => "NaN"
  | S754_infinity false => "Infinity"
  | S754_infinity true => "-Infinity"
  | S754_zero _ => fixedNotation 0 fractionDigits
  | S754_finite s m e =>
      ((if s then "-" else "") ++
       (if atLeast1e21 m e then exponentialNotation m e
        else fixedNotation (scaledNearest m e (Z.of_nat fractionDigits))
               fractionDigits))%string
  end.

End JsNumber.

Import JsNumber.

(** ** Dates

    [new Date(v).getTime()] for the two kinds of timestamp a route
    point can carry: a string, or [null] (the timestamp of the default
    position).  The standard leaves the reading of strings outside the
    ISO format to the engine, so the reader is a parameter:
    [Date_parse s] is the time value in milliseconds since the epoch, or
    [None] when the string is not a date.  [TimeClip] is the
    constructor's range check; a date out of range, like an unreadable
    one, has the time value NaN. *)

Module JsDate.

Definition MAX_TIME : Z := 8640000000000000.

Definition TimeClip (t : option Z) : option Z :=
  match t with
  | Some t => if Z.abs t <=? MAX_TIME then Some t else None
  | None => None
  end.

Section Date.
Variable Date_parse : string -> option Z.

(** The time value of [new Date(v)]; [None] is an invalid date. *)
Definition timeValue (v : option string) : option Z :=
  match v with
  | None => Some 0
  | Some str => TimeClip (Date_parse str)
  end.

Definition getTime (v : option string) : number :=
  match timeValue v with
  | Some t => ofZ t
  | None => NaN
  end.
End Date.

End JsDate.

Import JsDate.

(** ** Route points and arrays *)

(** A point of [routeData]: [{ lat, lng, timestamp }].  The timestamp is
    a string in the route resource and [null] ([None]) in the default
    position. *)
Record RoutePoint : Type := mkPoint {
  lat : number;
  lng : number;
  timestamp : option string
}.

(** [arr[i]]: [undefined] ([None]) outside [0 .. arr.length - 1]. *)
Definition index {A : Type} (arr : list A) (i : Z) : option A :=
  if i <? 0 then None else arr !! Z.to_nat i.

Definition jsLength {A : Type} (arr : list A) : Z := Z.of_nat (length arr).

(** ** The estimators *)

(** 111.32, the kilometres per degree of the planar approximation. *)
Definition KM_PER_DEGREE : number := Eval vm_compute in ofDecimal 11132 2.

Definition calculateDistanceKm (lat1 lon1 lat2 lon2 : number) : number :=
  let dLat := sub lat2 lat1 in
  let dLon := sub lon2 lon1 in
  mul (sqrt (add (mul dLat dLat) (mul dLon dLon))) KM_PER_DEGREE.

(** [1000 * 60 * 60] *)
Definition MS_PER_HOUR : number :=
  Eval vm_compute in mul (mul (ofZ 1000) (ofZ 60)) (ofZ 60).

Section Speed.
Variable Date_parse : string -> option Z.

Definition timeDeltaMs (prevPoint currPoint : RoutePoint) : number :=
  sub (getTime Date_parse (timestamp currPoint))
      (getTime Date_parse (timestamp prevPoint)).

Definition timeDeltaHours (prevPoint currPoint : RoutePoint) : number :=
  div (timeDeltaMs prevPoint currPoint) MS_PER_HOUR.

Definition distanceKm (prevPoint currPoint : RoutePoint) : number :=
  calculateDistanceKm (lat prevPoint) (lng prevPoint)
                      (lat currPoint) (lng currPoint).

Definition calculateSpeedKmH (currentIndex : Z) (routeData : list RoutePoint)
  : string :=
  if (currentIndex =? 0) || (jsLength routeData <=? 1) then "0.00"
  else
    (* the elements are objects: [!point] holds of [undefined] only *)
    match index routeData (currentIndex - 1), index routeData currentIndex with
    | Some prevPoint, Some currPoint =>
        if leb (timeDeltaHours prevPoint currPoint) (ofZ 0) then "N/A"
        else
          let speed :=
            div (distanceKm prevPoint currPoint)
                (timeDeltaHours prevPoint currPoint) in
          toFixed speed 2
    | _, _ => "0.00"
    end.

(** *** The same function with its operations recorded

    The array reads and the divisions, in the order in which the body
    performs them. *)
Inductive operation : Type :=
| Read (i : Z)
| Divide (dividend divisor : number).

Definition calculateSpeedKmH_ops (currentIndex : Z)
    (routeData : list RoutePoint) : string * list operation :=
  if (currentIndex =? 0) || (jsLength routeData <=? 1) then ("0.00"%string, [])
  else
    let reads := [Read currentIndex; Read (currentIndex - 1)] in
    match index routeData (currentIndex - 1), index routeData currentIndex with
    | Some prevPoint, Some currPoint =>
        let ms := timeDeltaMs prevPoint currPoint in
        let hours := div ms MS_PER_HOUR in
        let ops := reads ++ [Divide ms MS_PER_HOUR] in
        if leb hours (ofZ 0) then ("N/A"%string, ops)
        else
          let km := distanceKm prevPoint currPoint in
          (toFixed (div km hours) 2, ops ++ [Divide km hours])
    | _, _ => ("0.00"%string, reads)
    end.
End Speed.

(** ** The component

    The React state of [VehicleMap] ([routeData], [currentIndex],
    [isPlaying]), the mutable [intervalRef], and the part of the browser
    the component acts on: the interval timers that are currently
    scheduled, the supply of fresh timer identifiers, and the console
    output of [loadData] (the debugging prints of the render are left
    out). *)

Inductive logEntry : Type :=
| ConsoleLog (message : string)
| ConsoleError (message error : string).

Record State : Type := mkState {
  routeData : list RoutePoint;
  currentIndex : Z;
  isPlaying : bool;
  intervalRef : option nat;
  timers : gset nat;
  nextTimer : nat;
  console : list logEntry
}.

Definition setRouteData (r : list RoutePoint) (s : State) : State :=
  mkState r (currentIndex s) (isPlaying s) (intervalRef s) (timers s)
          (nextTimer s) (console s).

Definition setCurrentIndex (i : Z) (s : State) : State :=
  mkState (routeData s) i (isPlaying s) (intervalRef s) (timers s)
          (nextTimer s) (console s).

Definition setIsPlaying (b : bool) (s : State) : State :=
  mkState (routeData s) (currentIndex s) b (intervalRef s) (timers s)
          (nextTimer s) (console s).

Definition setIntervalRef (id : option nat) (s : State) : State :=
  mkState (routeData s) (currentIndex s) (isPlaying s) id (timers s)
          (nextTimer s) (console s).

Definition consoleWrite (entry : logEntry) (s : State) : State :=
  mkState (routeData s) (currentIndex s) (isPlaying s) (intervalRef s)
          (timers s) (nextTimer s) (console s ++ [entry]).

(** [setInterval(callback, 2000)]: schedules a timer under a fresh
    identifier and returns the identifier.  Every timer of this
    component carries the same callback,
    [setCurrentIndex(prevIndex => prevIndex + 1)]. *)
Definition setInterval (s : State) : nat * State :=
  let id := nextTimer s in
  (id, mkState (routeData s) (currentIndex s) (isPlaying s) (intervalRef s)
               ({[ id ]} ∪ timers s) (S id) (console s)).

(** [clearInterval(id)]: does nothing for [null] and for an identifier
    that is not scheduled. *)
Definition clearInterval (id : option nat) (s : State) : State :=
  match id with
  | Some i =>
      mkState (routeData s) (currentIndex s) (isPlaying s) (intervalRef s)
              (timers s ∖ {[ i ]}) (nextTimer s) (console s)
  | None => s
  end.

(** The playback effect, and the cleanup it returns. *)
Definition playbackEffect (s : State) : State :=
  if isPlaying s && (0 <? jsLength (routeData s))
     && (currentIndex s <? jsLength (routeData s) - 1)
  then let '(id, s') := setInterval s in setIntervalRef (Some id) s'
  else s.

Definition playbackCleanup (s : State) : State :=
  clearInterval (intervalRef s) s.

(** *** Loading the route *)

Module Resource.
(** An element of [dummy-route.json]. *)
Record Point : Type := mkPoint {
  latitude : number;
  longitude : number;
  timestamp : string
}.
End Resource.

Definition normalize (point : Resource.Point) : RoutePoint :=
  mkPoint (Resource.latitude point) (Resource.longitude point)
          (Some (Resource.timestamp point)).

(** How the request of [loadData] settles: [fetch] rejects,
    [response.json()] rejects, or the array arrives. *)
Inductive FetchOutcome : Type :=
| FetchRejected (error : string)
| JsonRejected (error : string)
| Fetched (data : list Resource.Point).

(** The body of the [try] block: the error thrown, or the state after
    [setRouteData] and [console.log]. *)
Definition loadData_try (o : FetchOutcome) (s : State) : string + State :=
  match o with
  | FetchRejected error => inl error
  | JsonRejected error => inl error
  | Fetched data =>
      inr (consoleWrite (ConsoleLog "VehicleMap component rendered")
             (setRouteData (map normalize data) s))
  end.

Definition loadData (o : FetchOutcome) (s : State) : State :=
  match loadData_try o s with
  | inr s' => s'
  | inl error =>
      consoleWrite (ConsoleError "Error loading route data:" error) s
  end.

(** *** Events

    What can happen to a mounted component: a click on either button,
    the firing of a scheduled timer, and the settling of the request.
    [dispatch] runs the handler; it is [None] when the event cannot
    occur, which is the case of [Tick] when no timer is scheduled.
    Events are taken one at a time: the render and the effects an
    event triggers are over before the next event is handled. *)
Inductive Event : Type :=
| ClickPlayPause
| ClickReset
| Tick
| LoadSettled (o : FetchOutcome).

Definition dispatch (e : Event) (s : State) : option State :=
  match e with
  | ClickPlayPause => Some (setIsPlaying (negb (isPlaying s)) s)
  | ClickReset => Some (setCurrentIndex 0 (setIsPlaying false s))
  | Tick =>
      if decide (timers s = ∅) then None
      else Some (setCurrentIndex (currentIndex s + 1) s)
  | LoadSettled o => Some (loadData o s)
  end.

(** The dependencies of the playback effect are
    [[isPlaying, currentIndex, routeData]].  The two scalars are compared
    by value; [routeData] changes exactly when [setRouteData] receives
    the array freshly built by [data.map]. *)
Definition routeReplaced (e : Event) : bool :=
  match e with
  | LoadSettled (Fetched _) => true
  | _ => false
  end.

Definition depsChanged (e : Event) (old new : State) : bool :=
  negb (Bool.eqb (isPlaying old) (isPlaying new))
  || negb (currentIndex old =? currentIndex new)
  || routeReplaced e.

(** After the handler React renders again; when a dependency changed it
    runs the cleanup of the previous effect, then the effect. *)
Definition commit (e : Event) (old new : State) : State :=
  if depsChanged e old new then playbackEffect (playbackCleanup new) else new.

Definition step (e : Event) (s : State) : option State :=
  match dispatch e s with
  | Some new => Some (commit e s new)
  | None => None
  end.

Fixpoint run (events : list Event) (s : State) : option State :=
  match events with
  | [] => Some s
  | e :: rest =>
      match step e s with
      | Some s' => run rest s'
      | None => None
      end
  end.

(** The component as mounted: the [useState] initial values, a null
    reference, nothing scheduled. *)
Definition initialState : State := mkState [] 0 false None ∅ 1 [].

(** The state in which playback starts once the route [r] is there. *)
Definition loadedState (r : list RoutePoint) : State :=
  setRouteData r initialState.

Definition playbackEvent (e : Event) : bool :=
  match e with
  | LoadSettled _ => false
  | _ => true
  end.

(** *** What a render reads *)

Definition defaultPosition : RoutePoint := mkPoint (ofZ 0) (ofZ 0) None.

(** [routeData[currentIndex] || { lat: 0, lng: 0, timestamp: null }] *)
Definition currentPosition (s : State) : RoutePoint :=
  match index (routeData s) (currentIndex s) with
  | Some point => point
  | None => defaultPosition
  end.

Definition inBounds {A : Type} (arr : list A) (i : Z) : bool :=
  (0 <=? i) && (i <? jsLength arr).

Section Render.
Variable Date_parse : string -> option Z.

Definition speedReadout (s : State) : string :=
  calculateSpeedKmH Date_parse (currentIndex s) (routeData s).

Definition readsOf (ops : list operation) : list Z :=
  omap (fun op => match op with Read i => Some i | Divide _ _ => None end) ops.

(** The indices at which one render reads [routeData]: once for
    [currentPosition], then inside [calculateSpeedKmH]. *)
Definition renderReads (s : State) : list Z :=
  currentIndex s
  :: readsOf (snd (calculateSpeedKmH_ops Date_parse (currentIndex s) (routeData s))).
End Render.

(** ** A reader for the interchange format

    The date-time string format of the standard, which every engine
    must read: a date [YYYY], [YYYY-MM] or [YYYY-MM-DD] (the year may
    also be a sign and six digits), optionally followed by [T] and a
    time [HH:mm], [HH:mm:ss] or [HH:mm:ss.s...], optionally followed by
    [Z] or an offset [+HH:mm] or [-HH:mm].  Hour 24 is the end of the
    day; of a fraction of a second the first three digits count.  This
    reader instantiates [Date_parse] wherever a concrete one is called
    for.  It is the reader of an engine that falls back on no other
    format and whose time zone is UTC, so that a string with no offset
    is read in UTC. *)

Module IsoDate.

Definition digit (c : ascii) : option Z :=
  let v := Z.of_N (N_of_ascii c) - 48 in
  if (0 <=? v) && (v <=? 9) then Some v else None.

(** [k] decimal digits at the head of [str], most significant first. *)
Fixpoint field (k : nat) (acc : Z) (str : string) : option (Z * string) :=
  match k with
  | O => Some (acc, str)
  | S k' =>
      match str with
      | String c rest =>
          match digit c with
          | Some v => field k' (10 * acc + v) rest
          | None => None
          end
      | EmptyString => None
      end
  end.

Definition expect (c : ascii) (str : string) : option string :=
  match str with
  | String c' rest => if Ascii.eqb c c' then Some rest else None
  | EmptyString => None
  end.

Definition leapYear (y : Z) : bool :=
  ((y mod 4 =? 0) && negb (y mod 100 =? 0)) || (y mod 400 =? 0).

Definition daysInMonth (y m : Z) : Z :=
  if m =? 2 then (if leapYear y then 29 else 28)
  else if (m =? 4) || (m =? 6) || (m =? 9) || (m =? 11) then 30
  else 31.

(** Days from 1970-01-01 to the given civil date. *)
Definition daysFromCivil (y m d : Z) : Z :=
  let y' := if m <=? 2 then y - 1 else y in
  let era := y' / 400 in
  let yoe := y' - era * 400 in
  let doy := (153 * (if 2 <? m then m - 3 else m + 9) + 2) / 5 + d - 1 in
  let doe := yoe * 365 + yoe / 4 - yoe / 100 + doy in
  era * 146097 + doe - 719468.

(** The year: four digits, or a sign and six digits other than
    [-000000]. *)
Definition year (str : string) : option (Z * string) :=
  match str with
  | String "+" rest => field 6 0 rest
  | String "-" rest =>
      '(y, rest') ← field 6 0 rest;
      if y =? 0 then None else Some (- y, rest')
  | _ => field 4 0 str
  end.

(** A field of [k] digits announced by the character [c], or its
    default when the character is not there. *)
Definition announced (c : ascii) (k : nat) (default : Z) (str : string)
  : option (Z * string) :=
  match expect c str with
  | Some rest => field k 0 rest
  | None => Some (default, str)
  end.

(** The digits at the head of [str], the first three of which are the
    milliseconds; [weight] is 100, 10, 1 and then 0. *)
Fixpoint fraction (weight : Z) (acc : Z) (str : string) : Z * string :=
  match str with
  | String c rest =>
      match digit c with
      | Some v => fraction (weight / 10) (acc + weight * v) rest
      | None => (acc, str)
      end
  | EmptyString => (acc, str)
  end.

Definition millis (str : string) : option (Z * string) :=
  match str with
  | String "." (String c rest) =>
      match digit c with
      | Some _ => Some (fraction 100 0 (String c rest))
      | None => None
      end
  | String "." EmptyString => None
  | _ => Some (0, str)
  end.

(** The offset from UTC in minutes, at the end of the string. *)
Definition offset (str : string) : option Z :=
  match str with
  | EmptyString => Some 0
  | String "Z" EmptyString => Some 0
  | String c rest =>
      if Ascii.eqb c "+" || Ascii.eqb c "-" then
        '(h, rest) ← field 2 0 rest;
        rest ← expect ":" rest;
        '(mi, rest) ← field 2 0 rest;
        if (rest =? "")%string && (h <=? 23) && (mi <=? 59)
        then Some ((if Ascii.eqb c "-" then -1 else 1) * (h * 60 + mi))
        else None
      else None
  end.

(** The time of day in milliseconds, less the offset; a date alone is
    midnight UTC. *)
Definition timeOfDay (str : string) : option Z :=
  match str with
  | EmptyString => Some 0
  | String "T" rest =>
      '(h, rest) ← field 2 0 rest;
      rest ← expect ":" rest;
      '(mi, rest) ← field 2 0 rest;
      '(sec, rest) ← announced ":" 2 0 rest;
      '(ms, rest) ← millis rest;
      off ← offset rest;
      if (mi <=? 59) && (sec <=? 59)
         && ((h <=? 23) || ((h =? 24) && (mi =? 0) && (sec =? 0) && (ms =? 0)))
      then Some (h * 3600000 + mi * 60000 + sec * 1000 + ms - off * 60000)
      else None
  | _ => None
  end.

(** Where the date ends: at the end of the string or at the [T]. *)
Definition dateEnds (str : string) : bool :=
  match str with
  | EmptyString => true
  | String c _ => Ascii.eqb c "T"
  end.

Definition parse (str : string) : option Z :=
  '(y, str) ← year str;
  '(m, str) ← announced "-" 2 1 str;
  '(d, str) ← (if dateEnds str then Some (1, str) else announced "-" 2 1 str);
  time ← timeOfDay str;
  if (1 <=? m) && (m <=? 12) && (1 <=? d) && (d <=? daysInMonth y m)
  then Some (daysFromCivil y m d * 86400000 + time)
  else None.

End IsoDate.

(** * Properties *)

(** ** Rounding

    What the proofs below need to know about [binary_round_aux], the
    rounding step every arithmetic operation ends with: the sign it is
    given is the sign of its result, and a magnitude above the smallest
    subnormal does not round to zero. *)

Section Rounding.

Definition emin : Z := -1074.

Lemma fexp_unfold x : fexp prec emax x = Z.max (x - 53) emin.
Proof. reflexivity. Qed.

Lemma digits2_pos_bounds p :
  2 ^ (Zpos (digits2_pos p) - 1) <= Zpos p < 2 ^ Zpos (digits2_pos p).
Proof.
  induction p as [p IH | p IH |]; cbn [digits2_pos].
  - rewrite Pos2Z.inj_succ, (Pos2Z.inj_xI p).
    replace (Z.succ (Zpos (digits2_pos p)) - 1) with (Z.succ (Zpos (digits2_pos p) - 1)) by lia.
    rewrite !Z.pow_succ_r by lia. lia.
  - rewrite Pos2Z.inj_succ, (Pos2Z.inj_xO p).
    replace (Z.succ (Zpos (digits2_pos p)) - 1) with (Z.succ (Zpos (digits2_pos p) - 1)) by lia.
    rewrite !Z.pow_succ_r by lia. lia.
  - cbn. lia.
Qed.

Lemma Zdigits2_pos m : 0 < m -> 0 < Zdigits2 m.
Proof. destruct m; cbn; lia. Qed.

Lemma Zdigits2_bounds m :
  0 < m -> 2 ^ (Zdigits2 m - 1) <= m < 2 ^ Zdigits2 m.
Proof.
  destruct m as [|p|p]; try lia. intros _. apply digits2_pos_bounds.
Qed.

(** A lower bound on a number is a lower bound on its width. *)
Lemma Zdigits2_lower m k : 0 < m -> 2 ^ (k - 1) <= m -> k <= Zdigits2 m.
Proof.
  intros Hm Hk. pose proof (Zdigits2_bounds m Hm) as [_ Hu].
  pose proof (Zdigits2_pos m Hm).
  destruct (Z.le_gt_cases k (Zdigits2 m)) as [|Hgt]; [assumption|].
  assert (2 ^ Zdigits2 m <= 2 ^ (k - 1)) by (apply Z.pow_le_mono_r; lia).
  lia.
Qed.

Lemma Zdigits2_mono m m' : 0 < m -> m <= m' -> Zdigits2 m <= Zdigits2 m'.
Proof.
  intros Hm Hle. apply Zdigits2_lower; [lia|].
  pose proof (Zdigits2_bounds m Hm). lia.
Qed.

Lemma shr_1_m r : 0 <= shr_m r -> shr_m (shr_1 r) = shr_m r / 2.
Proof.
  destruct r as [m r s]. cbn [shr_m]. intros Hm.
  destruct m as [|[p|p|]|p]; cbn [shr_1 shr_m]; try lia; try reflexivity.
  - rewrite (Pos2Z.inj_xI p). apply Z.div_unique with 1; lia.
  - rewrite (Pos2Z.inj_xO p). apply Z.div_unique with 0; lia.
Qed.

Lemma iter_pos_shr_m p : forall r,
  0 <= shr_m r -> shr_m (SpecFloat.iter_pos shr_1 p r) = shr_m r / 2 ^ Zpos p.
Proof.
  assert (Hpos : forall k, 0 < 2 ^ Zpos k) by (intros; apply Z.pow_pos_nonneg; lia).
  induction p as [p IH | p IH |]; intros r Hr; cbn [SpecFloat.iter_pos].
  - assert (H1 : 0 <= shr_m (shr_1 r))
      by (rewrite shr_1_m by assumption; apply Z.div_pos; lia).
    assert (H2 : 0 <= shr_m (SpecFloat.iter_pos shr_1 p (shr_1 r)))
      by (rewrite IH by assumption; apply Z.div_pos; [assumption | apply Hpos]).
    rewrite IH, IH, shr_1_m by assumption.
    rewrite !Z.div_div by (try apply Z.lt_le_incl, Hpos; try apply Hpos; lia).
    f_equal. rewrite (Pos2Z.inj_xI p).
    replace (2 * Zpos p + 1) with (1 + Zpos p + Zpos p) by lia.
    rewrite !Z.pow_add_r by lia. lia.
  - assert (H2 : 0 <= shr_m (SpecFloat.iter_pos shr_1 p r))
      by (rewrite IH by assumption; apply Z.div_pos; [assumption | apply Hpos]).
    rewrite IH, IH by assumption.
    rewrite Z.div_div by (try apply Z.lt_le_incl, Hpos; try apply Hpos; lia).
    f_equal. rewrite (Pos2Z.inj_xO p).
    replace (2 * Zpos p) with (Zpos p + Zpos p) by lia.
    rewrite Z.pow_add_r by lia. lia.
  - now rewrite shr_1_m.
Qed.

Lemma shr_record_of_loc_m m l : shr_m (shr_record_of_loc m l) = m.
Proof. destruct l as [|[]]; reflexivity. Qed.

(** The truncation step keeps a non-negative mantissa non-negative. *)
Lemma shr_fexp_nonneg m e l :
  0 <= m -> 0 <= shr_m (fst (shr_fexp prec emax m e l)).
Proof.
  intros Hm. unfold shr_fexp, shr.
  destruct (fexp prec emax (Zdigits2 m + e) - e) as [|p|p]; cbn [fst];
    try (rewrite shr_record_of_loc_m; assumption).
  rewrite iter_pos_shr_m by (rewrite shr_record_of_loc_m; assumption).
  rewrite shr_record_of_loc_m. apply Z.div_pos; [assumption|].
  apply Z.pow_pos_nonneg; lia.
Qed.

(** Above the smallest subnormal it keeps a positive mantissa positive,
    and lowers neither the exponent nor the order of magnitude. *)
Lemma shr_fexp_positive m e l :
  0 < m -> emin < Zdigits2 m + e ->
  let r := shr_fexp prec emax m e l in
  0 < shr_m (fst r) /\ e <= snd r
  /\ Zdigits2 m + e <= Zdigits2 (shr_m (fst r)) + snd r.
Proof.
  intros Hm Hmag. cbv zeta. unfold shr_fexp, shr.
  rewrite fexp_unfold.
  pose proof (Zdigits2_bounds m Hm) as [Hlo _].
  pose proof (Zdigits2_pos m Hm) as Hd.
  destruct (Z.max (Zdigits2 m + e - 53) emin - e) as [|p|p] eqn:Hn;
    cbn [fst snd]; rewrite ?shr_record_of_loc_m; try lia.
  rewrite iter_pos_shr_m by (rewrite shr_record_of_loc_m; lia).
  rewrite shr_record_of_loc_m.
  assert (Hp : Zpos p <= Zdigits2 m - 1) by lia.
  assert (Hq : 2 ^ (Zdigits2 m - 1 - Zpos p) <= m / 2 ^ Zpos p).
  { apply Z.div_le_lower_bound; [apply Z.pow_pos_nonneg; lia|].
    rewrite <- Z.pow_add_r by lia.
    replace (Zpos p + (Zdigits2 m - 1 - Zpos p)) with (Zdigits2 m - 1) by lia.
    assumption. }
  assert (Hone : 0 < 2 ^ (Zdigits2 m - 1 - Zpos p))
    by (apply Z.pow_pos_nonneg; lia).
  split; [lia|]. split; [lia|].
  assert (Zdigits2 m - Zpos p <= Zdigits2 (m / 2 ^ Zpos p)).
  { apply Zdigits2_lower; [lia|].
    replace (Zdigits2 m - Zpos p - 1) with (Zdigits2 m - 1 - Zpos p) by lia.
    assumption. }
  lia.
Qed.

Lemma round_nearest_even_bounds m l :
  m <= round_nearest_even m l <= m + 1.
Proof.
  unfold round_nearest_even. destruct l as [|[]]; try lia.
  destruct (Z.even m); lia.
Qed.

(** The possible results of rounding under the sign [s]. *)
Inductive signedAs (s : bool) : number -> Prop :=
| signed_zero : signedAs s (S754_zero s)
| signed_finite m e : signedAs s (S754_finite s m e)
| signed_infinity : signedAs s (S754_infinity s).

Lemma binary_round_aux_signed s m e l :
  0 <= m -> signedAs s (binary_round_aux prec emax s m e l).
Proof.
  intros Hm. unfold binary_round_aux.
  pose proof (shr_fexp_nonneg m e l Hm) as H1.
  destruct (shr_fexp prec emax m e l) as [r1 e1]. cbn [fst] in H1.
  pose proof (round_nearest_even_bounds (shr_m r1) (loc_of_shr_record r1)) as Hr.
  set (m1 := round_nearest_even (shr_m r1) (loc_of_shr_record r1)) in *.
  pose proof (shr_fexp_nonneg m1 e1 loc_Exact ltac:(lia)) as H2.
  destruct (shr_fexp prec emax m1 e1 loc_Exact) as [r2 e2]. cbn [fst] in H2.
  destruct (shr_m r2) as [|q|q]; try lia; [constructor|].
  destruct (e2 <=? emax - prec); constructor.
Qed.

(** A result of sign [s] and of magnitude at least [2^(d-1)]. *)
Definition magnitude (d : Z) (s : bool) (x : number) : Prop :=
  x = S754_infinity s
  \/ exists m e, x = S754_finite s m e /\ d <= Zdigits2 (Zpos m) + e.

Lemma binary_round_aux_magnitude s m e l :
  0 < m -> emin < Zdigits2 m + e ->
  magnitude (Zdigits2 m + e) s (binary_round_aux prec emax s m e l).
Proof.
  intros Hm Hmag. unfold binary_round_aux.
  pose proof (shr_fexp_positive m e l Hm Hmag) as (H1 & He1 & Hd1).
  destruct (shr_fexp prec emax m e l) as [r1 e1]. cbn [fst snd] in *.
  pose proof (round_nearest_even_bounds (shr_m r1) (loc_of_shr_record r1)) as Hr.
  set (m1 := round_nearest_even (shr_m r1) (loc_of_shr_record r1)) in *.
  assert (Hm1 : 0 < m1) by lia.
  pose proof (Zdigits2_mono (shr_m r1) m1 H1 ltac:(lia)) as Hmono.
  pose proof (shr_fexp_positive m1 e1 loc_Exact Hm1 ltac:(lia)) as (H2 & He2 & Hd2).
  destruct (shr_fexp prec emax m1 e1 loc_Exact) as [r2 e2]. cbn [fst snd] in *.
  destruct (shr_m r2) as [|q|q] eqn:Hq; try lia.
  destruct (e2 <=? emax - prec); [right | left; reflexivity].
  exists q, e2. split; [reflexivity | lia].
Qed.

End Rounding.


(** ** Formatting

    Below 10^21, [toFixed(2)] writes an integer part, a point and
    exactly two digits. *)

Section Formatting.

Lemma substring_length (str : string) : forall n m : nat,
  (n + m <= String.length str)%nat -> String.length (substring n m str) = m.
Proof.
  induction str as [|c rest IH]; intros [|n] [|m]; cbn [substring String.length];
    intros Hle; try lia.
  - rewrite IH by lia. reflexivity.
  - apply IH. lia.
  - apply IH. lia.
Qed.

Lemma append_length (a b : string) :
  String.length (a ++ b) = (String.length a + String.length b)%nat.
Proof.
  induction a as [|c a IH]; [reflexivity|].
  change (S (String.length (a ++ b)) = S (String.length a + String.length b)).
  now rewrite IH.
Qed.

Lemma zeros_length (k : nat) : String.length (zeros k) = k.
Proof. induction k as [|k IH]; cbn; [reflexivity | now rewrite IH]. Qed.

Lemma fixedNotation_two_decimals (n : Z) :
  exists whole frac : string,
    fixedNotation n 2 = (whole ++ "." ++ frac)%string
    /\ String.length frac = 2%nat /\ (1 <= String.length whole)%nat.
Proof.
  unfold fixedNotation.
  set (m := if (String.length (decimalDigits n) <=? 2)%nat
            then (zeros (2 + 1 - String.length (decimalDigits n))
                  ++ decimalDigits n)%string
            else decimalDigits n).
  assert (Hm : (3 <= String.length m)%nat).
  { unfold m. destruct (Nat.leb_spec (String.length (decimalDigits n)) 2).
    - rewrite append_length, zeros_length. lia.
    - lia. }
  exists (substring 0 (String.length m - 2) m),
         (substring (String.length m - 2) 2 m).
  split; [reflexivity|]. split; rewrite substring_length; lia.
Qed.

Lemma toFixed_two_decimals (s : bool) (m : positive) (e : Z) :
  atLeast1e21 m e = false ->
  exists whole frac : string,
    toFixed (S754_finite s m e) 2
    = ((if s then "-" else "") ++ whole ++ "." ++ frac)%string
    /\ String.length frac = 2%nat /\ (1 <= String.length whole)%nat.
Proof.
  intros Hsmall. cbn [toFixed]. rewrite Hsmall.
  destruct (fixedNotation_two_decimals (scaledNearest m e (Z.of_nat 2)))
    as (whole & frac & -> & Hfrac & Hwhole).
  exists whole, frac. repeat split; assumption.
Qed.

End Formatting.

(** ** The distance estimator *)

Section Distance.

Lemma binary_round_aux_abs s s' m e l :
  SFabs (binary_round_aux prec emax s m e l)
  = SFabs (binary_round_aux prec emax s' m e l).
Proof.
  unfold binary_round_aux.
  destruct (shr_fexp prec emax m e l) as [r1 e1].
  destruct (shr_fexp prec emax _ e1 loc_Exact) as [r2 e2].
  destruct (shr_m r2); [reflexivity | | reflexivity].
  destruct (e2 <=? emax - prec); reflexivity.
Qed.

Lemma binary_normalize_opp z e sz :
  SFabs (binary_normalize prec emax (- z) e sz)
  = SFabs (binary_normalize prec emax z e sz).
Proof.
  destruct z as [|p|p];
    [reflexivity
    | change (- Z.pos p) with (Z.neg p)
    | change (- Z.neg p) with (Z.pos p)];
    cbn [binary_normalize]; unfold binary_round;
    destruct (shl_align _ _ _); apply binary_round_aux_abs.
Qed.

(** Exchanging the operands of a subtraction changes at most the sign
    of the difference. *)
Lemma sub_swap x y : SFabs (sub x y) = SFabs (sub y x).
Proof.
  unfold sub.
  destruct x as [sx | sx | | sx mx ex], y as [sy | sy | | sy my ey];
    cbn [SFsub SFabs]; try reflexivity;
    try (destruct sx, sy; reflexivity).
  rewrite (Z.min_comm ey ex).
  set (a := cond_Zopp sx _). set (b := cond_Zopp sy _).
  replace (b - a) with (- (a - b)) by lia.
  symmetry. apply binary_normalize_opp.
Qed.

(** A square depends on the magnitude only. *)
Lemma mul_self_abs x y : SFabs x = SFabs y -> mul x x = mul y y.
Proof.
  unfold mul.
  destruct x as [sx | sx | | sx mx ex], y as [sy | sy | | sy my ey];
    cbn [SFabs SFmul]; intros H; try discriminate; try reflexivity;
    try (destruct sx, sy; reflexivity).
  injection H as -> ->. now destruct sx, sy.
Qed.

Lemma binary_round_signed s m e : signedAs s (binary_round prec emax s m e).
Proof.
  unfold binary_round. destruct (shl_align _ _ _) as [mz ez].
  apply binary_round_aux_signed. lia.
Qed.

Lemma binary_normalize_signed z e :
  exists s, signedAs s (binary_normalize prec emax z e false).
Proof.
  destruct z as [|p|p]; cbn [binary_normalize].
  - exists false. constructor.
  - exists false. apply binary_round_signed.
  - exists true. apply binary_round_signed.
Qed.

Lemma sub_finite x y :
  isFinite x = true -> isFinite y = true -> exists s, signedAs s (sub x y).
Proof.
  unfold sub.
  destruct x as [sx | sx | | sx mx ex], y as [sy | sy | | sy my ey];
    cbn [isFinite SFsub]; intros Hx Hy; try discriminate.
  - destruct sx, sy; eexists; constructor.
  - eexists; constructor.
  - eexists; constructor.
  - apply binary_normalize_signed.
Qed.

(** A square is NaN or non-negative, and NaN only when the operand is. *)
Lemma mul_self_signed x :
  (mul x x = NaN /\ x = NaN) \/ signedAs false (mul x x).
Proof.
  unfold mul. destruct x as [sx | sx | | sx mx ex]; cbn [SFmul].
  - right. destruct sx; constructor.
  - right. destruct sx; constructor.
  - left. split; reflexivity.
  - right. replace (xorb sx sx) with false by (now destruct sx).
    apply binary_round_aux_signed. lia.
Qed.

Lemma add_signed x y :
  signedAs false x -> signedAs false y -> signedAs false (add x y).
Proof.
  unfold add. intros [|mx ex|] [|my ey|]; cbn [SFadd]; try constructor.
  unfold cond_Zopp. cbn [Z.add binary_normalize].
  apply binary_round_signed.
Qed.

Lemma add_nan_l y : add NaN y = NaN.
Proof. reflexivity. Qed.

Lemma add_nan_r x : add x NaN = NaN.
Proof. now destruct x. Qed.

Lemma sqrt_signed x : signedAs false x -> signedAs false (sqrt x).
Proof.
  unfold sqrt. intros [|m e|]; cbn [SFsqrt]; try constructor.
  unfold SFsqrt_core_binary.
  set (m' := match e - 2 * _ with Z0 => _ | Zpos _ => _ | Zneg _ => _ end).
  pose proof (Z.sqrtrem_sqrt m') as Hq. pose proof (Z.sqrt_nonneg m') as Hs.
  destruct (Z.sqrtrem m') as [q r]. cbn [fst] in Hq. subst q.
  apply binary_round_aux_signed. assumption.
Qed.

Lemma mul_KM_PER_DEGREE_signed x :
  signedAs false x -> signedAs false (mul x KM_PER_DEGREE).
Proof.
  unfold mul, KM_PER_DEGREE. intros [|m e|]; cbn [SFmul xorb]; try constructor.
  apply binary_round_aux_signed. lia.
Qed.

Lemma signed_nonNegative x : signedAs false x -> nonNegative x = true.
Proof. intros [|m e|]; reflexivity. Qed.

Lemma signed_finite_square x :
  (exists s, signedAs s x) -> signedAs false (mul x x).
Proof.
  intros [s Hs]. destruct (mul_self_signed x) as [[_ ->] | H]; [|assumption].
  inversion Hs.
Qed.

Lemma calculateDistanceKm_nonnegative_or_NaN (lat1 lon1 lat2 lon2 : number) :
  calculateDistanceKm lat1 lon1 lat2 lon2 = NaN
  \/ signedAs false (calculateDistanceKm lat1 lon1 lat2 lon2).
Proof.
  unfold calculateDistanceKm. cbv zeta.
  destruct (mul_self_signed (sub lat2 lat1)) as [[-> _] | Hlat];
    [left; reflexivity|].
  destruct (mul_self_signed (sub lon2 lon1)) as [[-> _] | Hlon];
    [left; now rewrite add_nan_r|].
  right. apply mul_KM_PER_DEGREE_signed, sqrt_signed. now apply add_signed.
Qed.

(** C10.  [calculateDistanceKm] gives the same number whichever of the
    two points comes first.  The number is never negative: it is NaN or
    at least zero, and at least zero whenever the four coordinates are
    finite. *)
Theorem calculateDistanceKm_symmetric_nonnegative (lat1 lon1 lat2 lon2 : number) :
  calculateDistanceKm lat1 lon1 lat2 lon2 = calculateDistanceKm lat2 lon2 lat1 lon1
  /\ (isNaN (calculateDistanceKm lat1 lon1 lat2 lon2) = true
      \/ nonNegative (calculateDistanceKm lat1 lon1 lat2 lon2) = true)
  /\ (isFinite lat1 && isFinite lon1 && isFinite lat2 && isFinite lon2 = true ->
      nonNegative (calculateDistanceKm lat1 lon1 lat2 lon2) = true).
Proof.
  unfold calculateDistanceKm. cbv zeta. split; [|split].
  - rewrite (mul_self_abs _ _ (sub_swap lat2 lat1)).
    rewrite (mul_self_abs _ _ (sub_swap lon2 lon1)). reflexivity.
  - destruct (calculateDistanceKm_nonnegative_or_NaN lat1 lon1 lat2 lon2)
      as [H | H]; unfold calculateDistanceKm in H; cbv zeta in H.
    + left. rewrite H. reflexivity.
    + right. apply signed_nonNegative. exact H.
  - intros H. repeat (apply andb_prop in H as [H ?]).
    apply signed_nonNegative, mul_KM_PER_DEGREE_signed, sqrt_signed.
    apply add_signed; apply signed_finite_square; now apply sub_finite.
Qed.

End Distance.

Lemma calculateDistanceKm_symmetric_nonnegative_witness :
  isFinite (ofZ 17) && isFinite (ofZ 78) && isFinite (ofZ 18) && isFinite (ofZ 79) = true
  /\ nonNegative (calculateDistanceKm (ofZ 17) (ofZ 78) (ofZ 18) (ofZ 79)) = true.
Proof.
  split; [reflexivity|].
  apply (calculateDistanceKm_symmetric_nonnegative (ofZ 17) (ofZ 78) (ofZ 18) (ofZ 79)).
  reflexivity.
Defined.

(** ** Elapsed time

    Time values are integers of magnitude at most [MAX_TIME], below
    2^53: their conversion to a number is exact, so is the sign of their
    difference, and dividing a difference of at least one millisecond
    by [MS_PER_HOUR] does not underflow to zero. *)

Section ElapsedTime.

Lemma iter_xO_Z m k : Zpos (Pos.iter xO m k) = Zpos m * 2 ^ Zpos k.
Proof.
  induction k as [|k IH] using Pos.peano_ind.
  - cbn [Pos.iter]. lia.
  - rewrite Pos.iter_succ, (Pos2Z.inj_xO (Pos.iter xO m k)), IH, Pos2Z.inj_succ.
    rewrite Z.pow_succ_r by lia. lia.
Qed.

Lemma shl_align_spec mx ex ex' :
  Zpos (shl_align mx ex ex').1 = Zpos mx * 2 ^ (ex - (shl_align mx ex ex').2)
  /\ (shl_align mx ex ex').2 = Z.min ex ex'.
Proof.
  unfold shl_align. destruct (ex' - ex) as [|d|d] eqn:Hd; cbn [fst snd].
  - rewrite Z.sub_diag. cbn. lia.
  - rewrite Z.sub_diag. cbn. lia.
  - rewrite iter_xO_Z. replace (ex - ex') with (Zpos d) by lia. lia.
Qed.

Lemma Zdigits2_unique m k :
  0 < m -> 2 ^ (k - 1) <= m < 2 ^ k -> Zdigits2 m = k.
Proof.
  intros Hm [Hlo Hhi].
  pose proof (Zdigits2_lower m k Hm Hlo).
  pose proof (Zdigits2_bounds m Hm) as [Hlo' _].
  destruct (Z.le_gt_cases (Zdigits2 m) k) as [|Hgt]; [lia|].
  assert (2 ^ k <= 2 ^ (Zdigits2 m - 1)) by (apply Z.pow_le_mono_r; lia).
  lia.
Qed.

(** A full-width mantissa with an exponent in range is left as it is. *)
Lemma binary_round_aux_canonical s m e :
  Zpos (digits2_pos m) = 53 -> emin <= e <= 971 ->
  binary_round_aux prec emax s (Zpos m) e loc_Exact = S754_finite s m e.
Proof.
  intros Hd He. unfold binary_round_aux, shr_fexp.
  cbn [Zdigits2 shr_record_of_loc]. rewrite Hd, fexp_unfold.
  replace (Z.max (53 + e - 53) emin - e) with 0 by lia.
  cbn [shr shr_m loc_of_shr_record round_nearest_even Zdigits2].
  rewrite Hd, fexp_unfold.
  replace (Z.max (53 + e - 53) emin - e) with 0 by lia.
  cbn [shr shr_m].
  replace (e <=? emax - prec) with true; [reflexivity|].
  symmetry. apply Z.leb_le. unfold emax, prec. lia.
Qed.

(** An integer below 2^53 is represented exactly. *)
Lemma binary_round_exact s p :
  Zpos p < 2 ^ 53 ->
  exists m e,
    binary_round prec emax s p 0 = S754_finite s m e
    /\ Zpos m = Zpos p * 2 ^ (- e) /\ -52 <= e <= 0.
Proof.
  intros Hp. unfold binary_round.
  pose proof (digits2_pos_bounds p) as [Hlo Hhi].
  assert (Hd : Zpos (digits2_pos p) <= 53).
  { destruct (Z.le_gt_cases (Zpos (digits2_pos p)) 53) as [|Hgt]; [assumption|].
    assert (2 ^ 53 <= 2 ^ (Zpos (digits2_pos p) - 1))
      by (apply Z.pow_le_mono_r; lia).
    lia. }
  rewrite fexp_unfold.
  replace (Z.max (Zpos (digits2_pos p) + 0 - 53) emin)
    with (Zpos (digits2_pos p) - 53) by (unfold emin; lia).
  pose proof (shl_align_spec p 0 (Zpos (digits2_pos p) - 53)) as [Hm He].
  destruct (shl_align p 0 (Zpos (digits2_pos p) - 53)) as [mz ez].
  cbn [fst snd] in Hm, He.
  assert (Hez : ez = Zpos (digits2_pos p) - 53) by lia.
  replace (0 - ez) with (- ez) in Hm by lia.
  exists mz, ez. split; [|split; [assumption | lia]].
  apply binary_round_aux_canonical; [|unfold emin; lia].
  apply (Zdigits2_unique (Zpos mz) 53); [lia|].
  rewrite Hm, Hez.
  replace (- (Zpos (digits2_pos p) - 53)) with (53 - Zpos (digits2_pos p)) by lia.
  split.
  - replace (53 - 1) with ((Zpos (digits2_pos p) - 1) + (53 - Zpos (digits2_pos p))) by lia.
    rewrite Z.pow_add_r by lia.
    apply Z.mul_le_mono_nonneg_r; [apply Z.pow_nonneg; lia | assumption].
  - replace 53 with (Zpos (digits2_pos p) + (53 - Zpos (digits2_pos p))) at 2 by lia.
    rewrite Z.pow_add_r by lia.
    apply Z.mul_lt_mono_pos_r; [apply Z.pow_pos_nonneg; lia | assumption].
Qed.

Lemma ofZ_exact t :
  t <> 0 -> Z.abs t < 2 ^ 53 ->
  exists m e,
    ofZ t = S754_finite (t <? 0) m e
    /\ Zpos m = Z.abs t * 2 ^ (- e) /\ -52 <= e <= 0.
Proof.
  intros Ht Hlt. unfold ofZ.
  destruct t as [|p|p]; [contradiction | |]; cbn [binary_normalize];
    apply binary_round_exact; exact Hlt.
Qed.

Lemma magnitude_weaken d d' s x : d' <= d -> magnitude d s x -> magnitude d' s x.
Proof.
  intros Hd [H | (m & e & H & Hm)]; [left; assumption|].
  right. exists m, e. split; [assumption | lia].
Qed.

Lemma binary_round_magnitude s p e :
  emin < Zpos (digits2_pos p) + e ->
  magnitude (Zpos (digits2_pos p) + e) s (binary_round prec emax s p e).
Proof.
  intros Hmag. unfold binary_round.
  pose proof (shl_align_spec p e (fexp prec emax (Zpos (digits2_pos p) + e)))
    as [Hm He].
  destruct (shl_align p e _) as [mz ez]. cbn [fst snd] in Hm, He.
  pose proof (digits2_pos_bounds p) as [Hlo _].
  assert (Hdig : Zpos (digits2_pos p) + e - ez <= Zdigits2 (Zpos mz)).
  { apply Zdigits2_lower; [lia|]. rewrite Hm.
    replace (Zpos (digits2_pos p) + e - ez - 1)
      with ((Zpos (digits2_pos p) - 1) + (e - ez)) by lia.
    rewrite Z.pow_add_r by lia.
    apply Z.mul_le_mono_nonneg_r; [apply Z.pow_nonneg; lia | assumption]. }
  apply magnitude_weaken with (d := Zdigits2 (Zpos mz) + ez); [lia|].
  apply binary_round_aux_magnitude; lia.
Qed.

(** The difference of two time values has the sign of the difference of
    the integers, and is at least 1 in magnitude when they differ. *)
Lemma sub_ofZ a b :
  Z.abs a < 2 ^ 53 -> Z.abs b < 2 ^ 53 ->
  (a = b -> sub (ofZ b) (ofZ a) = S754_zero false)
  /\ (a <> b -> magnitude 1 (b <? a) (sub (ofZ b) (ofZ a))).
Proof.
  intros Ha Hb.
  assert (Hwide : forall t m e, t <> 0 -> Zpos m = Z.abs t * 2 ^ (- e) -> e <= 0 ->
                   1 <= Zdigits2 (Zpos m) + e).
  { intros t m e Ht Hm He.
    assert (1 - e <= Zdigits2 (Zpos m)); [|lia].
    apply Zdigits2_lower; [lia|]. rewrite Hm.
    replace (1 - e - 1) with (- e) by lia.
    assert (0 < 2 ^ (- e)) by (apply Z.pow_pos_nonneg; lia). nia. }
  destruct (Z.eq_dec a 0) as [-> | Ha0], (Z.eq_dec b 0) as [-> | Hb0].
  - split; [reflexivity | intros H; contradiction].
  - destruct (ofZ_exact b Hb0 Hb) as (mb & eb & -> & Hmb & Heb).
    split; [intros H; congruence | intros _].
    change (ofZ 0) with (S754_zero false). cbn [sub SFsub].
    right. exists mb, eb. split.
    + reflexivity.
    + apply (Hwide b); [assumption | assumption | lia].
  - destruct (ofZ_exact a Ha0 Ha) as (ma & ea & -> & Hma & Hea).
    split; [intros H; congruence | intros _].
    change (ofZ 0) with (S754_zero false). unfold sub. cbn [SFsub].
    right. exists ma, ea. split.
    + f_equal. destruct (Z.ltb_spec a 0), (Z.ltb_spec 0 a); try reflexivity; lia.
    + apply (Hwide a); [assumption | assumption | lia].
  - destruct (ofZ_exact a Ha0 Ha) as (ma & ea & -> & Hma & Hea).
    destruct (ofZ_exact b Hb0 Hb) as (mb & eb & -> & Hmb & Heb).
    unfold sub. cbn [SFsub].
    pose proof (shl_align_spec mb eb (Z.min eb ea)) as [Hb1 Hb2].
    pose proof (shl_align_spec ma ea (Z.min eb ea)) as [Ha1 Ha2].
    set (ez := Z.min eb ea) in *.
    rewrite Hb2 in Hb1. rewrite Ha2 in Ha1.
    replace (Z.min eb ez) with ez in Hb1 by lia.
    replace (Z.min ea ez) with ez in Ha1 by lia.
    rewrite Hb1, Ha1, Hmb, Hma.
    rewrite <- !Z.mul_assoc, <- !Z.pow_add_r by lia.
    replace (- eb + (eb - ez)) with (- ez) by lia.
    replace (- ea + (ea - ez)) with (- ez) by lia.
    assert (Hpow : 0 < 2 ^ (- ez)) by (apply Z.pow_pos_nonneg; lia).
    assert (Hdelta :
      cond_Zopp (b <? 0) (Z.abs b * 2 ^ (- ez))
      - cond_Zopp (a <? 0) (Z.abs a * 2 ^ (- ez)) = (b - a) * 2 ^ (- ez)).
    { unfold cond_Zopp.
      destruct (Z.ltb_spec b 0), (Z.ltb_spec a 0); lia. }
    rewrite Hdelta. clear Hdelta Hb1 Ha1 Hb2 Ha2.
    destruct ((b - a) * 2 ^ (- ez)) as [|p|p] eqn:Hp.
    + split; [reflexivity | intros Hne; nia].
    + split; [intros ->; lia | intros Hne].
      assert (Hlt : a < b) by nia.
      replace (b <? a) with false by (symmetry; apply Z.ltb_ge; lia).
      cbn [binary_normalize].
      assert (1 - ez <= Zpos (digits2_pos p)).
      { apply (Zdigits2_lower (Zpos p)); [lia|].
        replace (1 - ez - 1) with (- ez) by lia. nia. }
      apply magnitude_weaken with (d := Zpos (digits2_pos p) + ez); [lia|].
      apply binary_round_magnitude. unfold emin. lia.
    + split; [intros ->; lia | intros Hne].
      assert (Hlt : b < a) by nia.
      replace (b <? a) with true by (symmetry; apply Z.ltb_lt; lia).
      cbn [binary_normalize].
      assert (1 - ez <= Zpos (digits2_pos p)).
      { apply (Zdigits2_lower (Zpos p)); [lia|].
        replace (1 - ez - 1) with (- ez) by lia. nia. }
      apply magnitude_weaken with (d := Zpos (digits2_pos p) + ez); [lia|].
      apply binary_round_magnitude. unfold emin. lia.
Qed.

(** Dividing by [MS_PER_HOUR] keeps the sign, and a magnitude of at
    least 1 does not become zero. *)
Lemma div_MS_PER_HOUR_sign s x :
  magnitude 1 s x -> leb (div x MS_PER_HOUR) (ofZ 0) = s.
Proof.
  intros [-> | (m & e & -> & Hmag)].
  - now destruct s.
  - unfold div, MS_PER_HOUR. cbn [SFdiv]. unfold SFdiv_core_binary.
    change (Zdigits2 (Zpos 7730941132800000)) with 53.
    rewrite fexp_unfold.
    pose proof (Zdigits2_bounds (Zpos m) ltac:(lia)) as [Hlo _].
    pose proof (Zdigits2_pos (Zpos m) ltac:(lia)) as Hd1.
    set (d1 := Zdigits2 (Zpos m)) in *.
    replace (Z.max (d1 + e - (53 + -31) - 53) emin) with (d1 + e - 75)
      by (unfold emin; lia).
    set (e' := Z.min (d1 + e - 75) (e - -31)).
    set (s' := e - -31 - e').
    assert (Hs : 0 <= s' /\ 106 - d1 <= s') by (unfold s', e'; lia).
    set (m' := match s' with Z0 => _ | Zpos _ => _ | Zneg _ => _ end).
    assert (Hm' : m' = Zpos m * 2 ^ s').
    { unfold m'. destruct s' as [|p|p] eqn:Hs'; [cbn; lia | | lia].
      apply Z.shiftl_mul_pow2. lia. }
    assert (Hq : 2 ^ (d1 - 1 + s' - 53) <= m' / 7730941132800000).
    { apply Z.div_le_lower_bound; [lia|].
      apply Z.le_trans with (2 ^ 53 * 2 ^ (d1 - 1 + s' - 53)).
      - apply Z.mul_le_mono_nonneg_r; [apply Z.pow_nonneg; lia | cbn; lia].
      - rewrite <- Z.pow_add_r by lia.
        replace (53 + (d1 - 1 + s' - 53)) with ((d1 - 1) + s') by lia.
        rewrite Z.pow_add_r, Hm' by lia.
        apply Z.mul_le_mono_nonneg_r; [apply Z.pow_nonneg; lia | assumption]. }
    assert (Hpos : 0 < 2 ^ (d1 - 1 + s' - 53)) by (apply Z.pow_pos_nonneg; lia).
    unfold Z.div in Hq.
    destruct (Z.div_eucl m' 7730941132800000) as [q r].
    assert (Hdig : d1 + s' - 53 <= Zdigits2 q).
    { apply Zdigits2_lower; [lia|].
      replace (d1 + s' - 53 - 1) with (d1 - 1 + s' - 53) by lia. assumption. }
    destruct (binary_round_aux_magnitude (xorb s false) q e'
                (new_location 7730941132800000 r) ltac:(lia)
                ltac:(unfold emin, s' in *; lia))
      as [-> | (m2 & e2 & -> & _)]; now destruct s.
Qed.

Lemma timeValue_bound Date_parse v t :
  timeValue Date_parse v = Some t -> Z.abs t < 2 ^ 53.
Proof.
  destruct v as [str|]; cbn [timeValue].
  - unfold TimeClip. destruct (Date_parse str) as [t'|]; [|discriminate].
    destruct (Z.leb_spec (Z.abs t') MAX_TIME) as [Hle|]; [|discriminate].
    intros [= <-]. unfold MAX_TIME in Hle.
    apply Z.le_lt_trans with (1 := Hle). reflexivity.
  - intros [= <-]. reflexivity.
Qed.

End ElapsedTime.

(** ** The guards of [calculateSpeedKmH] *)

Section SpeedGuards.
Variable Date_parse : string -> option Z.

(** A missing current point is answered "0.00" by one guard or the
    other. *)
Lemma calculateSpeedKmH_undefined (i : Z) (route : list RoutePoint) :
  index route i = None -> calculateSpeedKmH Date_parse i route = "0.00"%string.
Proof.
  intros Hnone. unfold calculateSpeedKmH. rewrite Hnone.
  destruct ((i =? 0) || (jsLength route <=? 1)); [reflexivity|].
  now destruct (index route (i - 1)).
Qed.

(** C4.  [calculateSpeedKmH] answers "0.00" at index 0, on a route of at
    most one point, and whenever the point at the index or the point
    before it is missing. *)
Theorem calculateSpeedKmH_zero (i : Z) (route : list RoutePoint) :
  i = 0 \/ jsLength route <= 1
  \/ index route i = None \/ index route (i - 1) = None ->
  calculateSpeedKmH Date_parse i route = "0.00"%string.
Proof.
  intros H. unfold calculateSpeedKmH.
  destruct ((i =? 0) || (jsLength route <=? 1)) eqn:Hguard; [reflexivity|].
  apply orb_false_elim in Hguard as [Hi Hlen].
  apply Z.eqb_neq in Hi. apply Z.leb_gt in Hlen.
  destruct H as [H | [H | [H | H]]]; try lia.
  - rewrite H. now destruct (index route (i - 1)).
  - now rewrite H.
Qed.

Lemma index_Some_bounds {A : Type} (arr : list A) (i : Z) (x : A) :
  index arr i = Some x -> 0 <= i < jsLength arr.
Proof.
  unfold index, jsLength. destruct (Z.ltb_spec i 0) as [|Hi]; [discriminate|].
  intros Hlook. apply lookup_lt_Some in Hlook. lia.
Qed.

Lemma calculateSpeedKmH_ops_result (i : Z) (route : list RoutePoint) :
  (calculateSpeedKmH_ops Date_parse i route).1 = calculateSpeedKmH Date_parse i route.
Proof.
  unfold calculateSpeedKmH_ops, calculateSpeedKmH, timeDeltaHours.
  destruct ((i =? 0) || (jsLength route <=? 1)); [reflexivity|].
  destruct (index route (i - 1)) as [prevPoint|], (index route i) as [currPoint|];
    try reflexivity.
  now destruct (leb _ _).
Qed.

(** With two points in place the first guard is passed. *)
Lemma first_guard_passed (i : Z) (route : list RoutePoint) prevPoint currPoint :
  1 <= i -> index route (i - 1) = Some prevPoint -> index route i = Some currPoint ->
  (i =? 0) || (jsLength route <=? 1) = false.
Proof.
  intros Hi _ Hcurr. apply index_Some_bounds in Hcurr.
  apply orb_false_intro; [apply Z.eqb_neq | apply Z.leb_gt]; lia.
Qed.

(** The sign test on the elapsed hours decides as the time values do. *)
Lemma elapsed_hours_test prevPoint currPoint tPrev tCurr :
  timeValue Date_parse (timestamp prevPoint) = Some tPrev ->
  timeValue Date_parse (timestamp currPoint) = Some tCurr ->
  timeDeltaMs Date_parse prevPoint currPoint = sub (ofZ tCurr) (ofZ tPrev)
  /\ leb (timeDeltaHours Date_parse prevPoint currPoint) (ofZ 0) = (tCurr <=? tPrev).
Proof.
  intros Hprev Hcurr.
  unfold timeDeltaHours, timeDeltaMs, getTime. rewrite Hprev, Hcurr.
  split; [reflexivity|].
  destruct (sub_ofZ tPrev tCurr (timeValue_bound _ _ _ Hprev)
              (timeValue_bound _ _ _ Hcurr)) as [Heq Hne].
  destruct (Z.eq_dec tPrev tCurr) as [-> | Hdiff].
  - rewrite Heq by reflexivity. rewrite Z.leb_refl. reflexivity.
  - rewrite (div_MS_PER_HOUR_sign _ _ (Hne Hdiff)).
    destruct (Z.ltb_spec tCurr tPrev), (Z.leb_spec tCurr tPrev); try reflexivity; lia.
Qed.

(** At an index whose point and predecessor exist, with the later time
    value strictly greater, both guards are passed: the readout is
    [toFixed(2)] of [sqrt(dLat^2 + dLon^2) * 111.32] divided by the
    elapsed hours. *)
Lemma calculateSpeedKmH_speed (i : Z) (route : list RoutePoint)
    (prevPoint currPoint : RoutePoint) (tPrev tCurr : Z) :
  1 <= i ->
  index route (i - 1) = Some prevPoint ->
  index route i = Some currPoint ->
  timeValue Date_parse (timestamp prevPoint) = Some tPrev ->
  timeValue Date_parse (timestamp currPoint) = Some tCurr ->
  tPrev < tCurr ->
  let dLat := sub (lat currPoint) (lat prevPoint) in
  let dLon := sub (lng currPoint) (lng prevPoint) in
  let km := mul (sqrt (add (mul dLat dLat) (mul dLon dLon))) (ofDecimal 11132 2) in
  let hours := div (sub (ofZ tCurr) (ofZ tPrev)) (ofZ 3600000) in
  calculateSpeedKmH Date_parse i route = toFixed (div km hours) 2.
Proof.
  intros Hi Hprev Hcurr HtPrev HtCurr Hlt. cbv zeta.
  unfold calculateSpeedKmH.
  rewrite (first_guard_passed i route _ _ Hi Hprev Hcurr), Hprev, Hcurr.
  destruct (elapsed_hours_test _ _ _ _ HtPrev HtCurr) as [Hms Htest].
  rewrite Htest.
  replace (tCurr <=? tPrev) with false by (symmetry; apply Z.leb_gt; lia).
  unfold timeDeltaHours. rewrite Hms. reflexivity.
Qed.

(** C3.  With both points in place and the later time value not
    greater than the earlier one, the readout is "N/A".  The only
    division performed is the conversion of the elapsed milliseconds
    to hours: nothing is divided by the elapsed time. *)
Theorem calculateSpeedKmH_not_available (i : Z) (route : list RoutePoint)
    (prevPoint currPoint : RoutePoint) (tPrev tCurr : Z) :
  1 <= i ->
  index route (i - 1) = Some prevPoint ->
  index route i = Some currPoint ->
  timeValue Date_parse (timestamp prevPoint) = Some tPrev ->
  timeValue Date_parse (timestamp currPoint) = Some tCurr ->
  tCurr <= tPrev ->
  calculateSpeedKmH Date_parse i route = "N/A"%string
  /\ calculateSpeedKmH_ops Date_parse i route
     = ("N/A"%string,
        [Read i; Read (i - 1); Divide (sub (ofZ tCurr) (ofZ tPrev)) MS_PER_HOUR])
  /\ forall x, ~ In (Divide x (timeDeltaHours Date_parse prevPoint currPoint))
                   (calculateSpeedKmH_ops Date_parse i route).2.
Proof.
  intros Hi Hprev Hcurr HtPrev HtCurr Hle.
  destruct (elapsed_hours_test _ _ _ _ HtPrev HtCurr) as [Hms Htest].
  replace (tCurr <=? tPrev) with true in Htest by (symmetry; apply Z.leb_le; lia).
  assert (Hops : calculateSpeedKmH_ops Date_parse i route
     = ("N/A"%string,
        [Read i; Read (i - 1); Divide (sub (ofZ tCurr) (ofZ tPrev)) MS_PER_HOUR])).
  { unfold calculateSpeedKmH_ops.
    rewrite (first_guard_passed i route _ _ Hi Hprev Hcurr), Hprev, Hcurr.
    unfold timeDeltaHours in Htest. rewrite Htest, Hms. reflexivity. }
  split; [|split].
  - rewrite <- calculateSpeedKmH_ops_result, Hops. reflexivity.
  - exact Hops.
  - intros x Hin. rewrite Hops in Hin. cbn [snd] in Hin.
    destruct Hin as [H | [H | [H | []]]]; try discriminate.
    injection H as _ Hdiv. rewrite <- Hdiv in Htest. discriminate.
Qed.

(** An unreadable timestamp on either side makes the readout "NaN":
    the elapsed time is NaN, which the sign test lets through. *)
Lemma calculateSpeedKmH_invalid_date (i : Z) (route : list RoutePoint)
    (prevPoint currPoint : RoutePoint) :
  1 <= i ->
  index route (i - 1) = Some prevPoint ->
  index route i = Some currPoint ->
  timeValue Date_parse (timestamp prevPoint) = None
  \/ timeValue Date_parse (timestamp currPoint) = None ->
  calculateSpeedKmH Date_parse i route = "NaN"%string.
Proof.
  intros Hi Hprev Hcurr Hnone. unfold calculateSpeedKmH.
  rewrite (first_guard_passed i route _ _ Hi Hprev Hcurr), Hprev, Hcurr.
  assert (Hhours : timeDeltaHours Date_parse prevPoint currPoint = NaN).
  { unfold timeDeltaHours, timeDeltaMs, getTime.
    destruct Hnone as [-> | ->]; [|reflexivity].
    now destruct (timeValue Date_parse (timestamp currPoint)) as [t|];
      [destruct (ofZ t)|]. }
  rewrite Hhours. cbn [leb SFleb SFcompare NaN].
  now destruct (distanceKm prevPoint currPoint).
Qed.

(** The quotient of a non-negative number by a positive one is
    non-negative, or NaN when both are infinite. *)
Lemma div_signed x y :
  signedAs false x -> leb y (ofZ 0) = false -> y <> NaN ->
  signedAs false (div x y) \/ div x y = NaN.
Proof.
  unfold div. intros Hx Hy Hnan.
  destruct y as [sy | [] | | [] my ey]; try discriminate; try contradiction;
    destruct Hx as [|mx ex|]; cbn [SFdiv xorb];
    try (left; constructor); try (right; reflexivity).
  unfold SFdiv_core_binary.
  set (m' := match _ - _ - _ with Z0 => _ | Zpos _ => _ | Zneg _ => _ end).
  assert (Hm' : 0 <= m').
  { unfold m'. destruct (_ - _ - _) as [|p|p]; try lia.
    apply Z.shiftl_nonneg. lia. }
  pose proof (Z.div_pos m' (Zpos my) Hm' ltac:(lia)) as Hq.
  unfold Z.div in Hq. destruct (Z.div_eucl m' (Zpos my)) as [q r].
  left. apply binary_round_aux_signed. exact Hq.
Qed.

(** Every readout is "0.00", "N/A", or [toFixed(2)] of a number that
    is NaN or non-negative: a negative speed is never shown. *)
Lemma calculateSpeedKmH_readout (i : Z) (route : list RoutePoint) :
  calculateSpeedKmH Date_parse i route = "0.00"%string
  \/ calculateSpeedKmH Date_parse i route = "N/A"%string
  \/ exists speed,
       calculateSpeedKmH Date_parse i route = toFixed speed 2
       /\ (isNaN speed = true \/ nonNegative speed = true).
Proof.
  unfold calculateSpeedKmH.
  destruct ((i =? 0) || (jsLength route <=? 1)); [left; reflexivity|].
  destruct (index route (i - 1)) as [prevPoint|]; [|left; reflexivity].
  destruct (index route i) as [currPoint|]; [|left; reflexivity].
  destruct (leb (timeDeltaHours Date_parse prevPoint currPoint) (ofZ 0)) eqn:Hle;
    [right; left; reflexivity|].
  right. right. eexists. split; [reflexivity|].
  destruct (calculateDistanceKm_nonnegative_or_NaN (lat prevPoint) (lng prevPoint)
              (lat currPoint) (lng currPoint)) as [Hnan | Hkm].
  - left. unfold distanceKm. rewrite Hnan. reflexivity.
  - assert (Hnum : timeDeltaHours Date_parse prevPoint currPoint <> NaN
                   \/ timeDeltaHours Date_parse prevPoint currPoint = NaN)
      by (destruct (timeDeltaHours Date_parse prevPoint currPoint);
          (left; discriminate) || (right; reflexivity)).
    destruct Hnum as [Hnum | ->].
    + destruct (div_signed _ _ Hkm Hle Hnum) as [H | H].
      * right. apply signed_nonNegative. exact H.
      * left. unfold distanceKm. rewrite H. reflexivity.
    + left. unfold div. now destruct (distanceKm prevPoint currPoint).
Qed.

End SpeedGuards.

(** ** The format of the readout

    What "two decimal digits" means is said here without [toFixed]: a
    numeral with an integer part, a point and exactly two digits is
    read back in hundredths, and the hundredths are compared with the
    exact value of the number. *)

Section ReadoutFormat.
Variable Date_parse : string -> option Z.

(** The text before the first point and the text after it. *)
Fixpoint splitAtPoint (str : string) : option (string * string) :=
  match str with
  | EmptyString => None
  | String c rest =>
      if Ascii.eqb c "." then Some (EmptyString, rest)
      else
        match splitAtPoint rest with
        | Some (whole, frac) => Some (String c whole, frac)
        | None => None
        end
  end.

(** The value in hundredths of a numeral made of one digit or more, a
    point and two digits; [None] for any other string. *)
Definition hundredths (str : string) : option Z :=
  match splitAtPoint str with
  | Some (whole, frac) =>
      if (1 <=? String.length whole)%nat && (String.length frac =? 2)%nat
      then option_map Z.of_uint (NilEmpty.uint_of_string (whole ++ frac))
      else None
  | None => None
  end.

(** [n] hundredths is the multiple of 0.01 nearest to [x], the larger
    one when two are equally near: [2n - 1 <= 200 x < 2n + 1], with
    [x = m * 2^e] cleared of its denominator. *)
Definition nearestHundredth (x : number) (n : Z) : Prop :=
  match x with
  | S754_zero _ => n = 0
  | S754_finite false m e =>
      (2 * n - 1) * 2 ^ Z.max 0 (- e) <= 200 * Zpos m * 2 ^ Z.max 0 e
      /\ 200 * Zpos m * 2 ^ Z.max 0 e < (2 * n + 1) * 2 ^ Z.max 0 (- e)
  | _ => False
  end.

(** [x] is finite and below 10^21 in magnitude. *)
Definition belowExponential (x : number) : Prop :=
  match x with
  | S754_zero _ => True
  | S754_finite _ m e => Zpos m * 2 ^ Z.max 0 e < 10 ^ 21 * 2 ^ Z.max 0 (- e)
  | _ => False
  end.

Definition isDigit (c : ascii) : bool :=
  match NilEmpty.uint_of_string (String c EmptyString) with
  | Some _ => true
  | None => false
  end.

Fixpoint allDigits (str : string) : bool :=
  match str with
  | EmptyString => true
  | String c rest => isDigit c && allDigits rest
  end.

Lemma uint_of_char_digit (c : ascii) (d : Decimal.uint) :
  isDigit c = true -> exists d', uint_of_char c (Some d) = Some d'.
Proof.
  unfold isDigit. cbn [NilEmpty.uint_of_string].
  destruct c as [[|] [|] [|] [|] [|] [|] [|] [|]]; cbn;
    intros H; try discriminate; eexists; reflexivity.
Qed.

Lemma uint_of_char_isDigit (c : ascii) (o : option Decimal.uint) (d : Decimal.uint) :
  uint_of_char c o = Some d -> isDigit c = true /\ exists d0, o = Some d0.
Proof.
  destruct o as [d0|]; [|discriminate]. intros H. split; [|eauto].
  unfold isDigit. cbn [NilEmpty.uint_of_string].
  destruct c as [[|] [|] [|] [|] [|] [|] [|] [|]]; cbn in *;
    try discriminate; reflexivity.
Qed.

Lemma allDigits_parse (str : string) :
  allDigits str = true <-> exists d, NilEmpty.uint_of_string str = Some d.
Proof.
  induction str as [|c rest IH]; cbn [allDigits NilEmpty.uint_of_string].
  - split; [eauto | reflexivity].
  - split.
    + intros H. apply andb_prop in H as [Hc Hrest].
      apply IH in Hrest as [d ->]. exact (uint_of_char_digit c d Hc).
    + intros [d H]. apply uint_of_char_isDigit in H as [Hc Hrest].
      apply IH in Hrest. now rewrite Hc, Hrest.
Qed.

Lemma allDigits_substring (str : string) : forall n k,
  allDigits str = true -> allDigits (substring n k str) = true.
Proof.
  induction str as [|c rest IH]; intros [|n] [|k] H;
    cbn [substring allDigits] in *; try reflexivity.
  - apply andb_prop in H as [Hc Hrest]. rewrite Hc. cbn [andb]. now apply IH.
  - apply andb_prop in H as [_ Hrest]. now apply IH.
  - apply andb_prop in H as [_ Hrest]. now apply IH.
Qed.

Lemma splitAtPoint_digits (whole frac : string) :
  allDigits whole = true ->
  splitAtPoint (whole ++ String "." frac) = Some (whole, frac).
Proof.
  induction whole as [|c rest IH]; intros H.
  - reflexivity.
  - cbn [allDigits] in H. apply andb_prop in H as [Hc Hrest].
    change (String c rest ++ String "." frac)%string
      with (String c (rest ++ String "." frac)).
    cbn [splitAtPoint]. rewrite (IH Hrest).
    replace (Ascii.eqb c ".") with false; [reflexivity|].
    unfold isDigit in Hc. cbn [NilEmpty.uint_of_string] in Hc.
    destruct c as [[|] [|] [|] [|] [|] [|] [|] [|]]; cbn in *;
      try discriminate; reflexivity.
Qed.

Lemma substring_all (str : string) :
  substring 0 (String.length str) str = str.
Proof.
  induction str as [|c rest IH]; [reflexivity|].
  cbn [String.length substring]. now rewrite IH.
Qed.

Lemma substring_split (str : string) : forall j,
  (j <= String.length str)%nat ->
  (substring 0 j str ++ substring j (String.length str - j) str)%string = str.
Proof.
  induction str as [|c rest IH]; intros [|j] Hj.
  - reflexivity.
  - cbn [String.length] in Hj. lia.
  - rewrite Nat.sub_0_r, substring_all. reflexivity.
  - cbn [String.length] in Hj.
    change (substring 0 (S j) (String c rest))
      with (String c (substring 0 j rest)).
    change (substring (S j) (String.length (String c rest) - S j) (String c rest))
      with (substring j (String.length rest - j) rest).
    change (String c (substring 0 j rest)
            ++ substring j (String.length rest - j) rest)%string
      with (String c (substring 0 j rest
                      ++ substring j (String.length rest - j) rest)).
    f_equal. apply IH. lia.
Qed.

Lemma decimalDigits_value (n : Z) :
  0 <= n ->
  exists d, NilEmpty.uint_of_string (decimalDigits n) = Some d /\ Z.of_uint d = n.
Proof.
  intros Hn. unfold decimalDigits, NilZero.string_of_uint.
  pose proof (DecimalN.Unsigned.of_to (Z.to_N n)) as Hback.
  destruct (N.to_uint (Z.to_N n)) as [|d|d|d|d|d|d|d|d|d|d] eqn:Hd;
    [exists (Decimal.D0 Decimal.Nil) | | | | | | | | | |];
    try (eexists; split; [apply NilEmpty.usu|];
         unfold Z.of_uint; change (Pos.of_uint ?x) with (N.of_uint x);
         rewrite Hback; apply Z2N.id; exact Hn).
  split; [reflexivity|].
  cbn in Hback. cbn. lia.
Qed.

Lemma zeros_value (k : nat) (str : string) (d : Decimal.uint) :
  NilEmpty.uint_of_string str = Some d ->
  exists d', NilEmpty.uint_of_string (zeros k ++ str) = Some d'
             /\ Z.of_uint d' = Z.of_uint d.
Proof.
  intros H. induction k as [|k (d' & Hd' & Hv)].
  - exists d. split; [exact H | reflexivity].
  - exists (Decimal.D0 d'). split; [|exact Hv].
    change (zeros (S k) ++ str)%string with (String "0" (zeros k ++ str)).
    cbn [NilEmpty.uint_of_string]. rewrite Hd'. reflexivity.
Qed.

(** The numeral [fixedNotation n 2] reads back as [n] hundredths. *)
Lemma hundredths_fixedNotation (n : Z) :
  0 <= n -> hundredths (fixedNotation n 2) = Some n.
Proof.
  intros Hn. unfold fixedNotation.
  destruct (decimalDigits_value n Hn) as (d & Hd & Hv).
  set (m := if (String.length (decimalDigits n) <=? 2)%nat
            then (zeros (2 + 1 - String.length (decimalDigits n))
                  ++ decimalDigits n)%string
            else decimalDigits n).
  assert (Hm : (3 <= String.length m)%nat
               /\ exists d', NilEmpty.uint_of_string m = Some d'
                             /\ Z.of_uint d' = n).
  { unfold m. destruct (Nat.leb_spec (String.length (decimalDigits n)) 2).
    - split; [rewrite append_length, zeros_length; lia|].
      destruct (zeros_value (2 + 1 - String.length (decimalDigits n)) _ _ Hd)
        as (d' & Hd' & Hv').
      exists d'. split; [exact Hd' | congruence].
    - split; [lia|]. exists d. split; assumption. }
  destruct Hm as (Hlen & d' & Hd' & Hv').
  assert (Hall : allDigits m = true) by (apply allDigits_parse; eauto).
  unfold hundredths.
  change (substring 0 (String.length m - 2) m ++ "."
          ++ substring (String.length m - 2) 2 m)%string
    with (substring 0 (String.length m - 2) m
          ++ String "." (substring (String.length m - 2) 2 m))%string.
  rewrite splitAtPoint_digits by (apply allDigits_substring; exact Hall).
  rewrite !substring_length by lia.
  replace (1 <=? String.length m - 2)%nat with true
    by (symmetry; apply Nat.leb_le; lia).
  cbn [Nat.eqb andb].
  assert (Hsplit : (substring 0 (String.length m - 2) m
                    ++ substring (String.length m - 2) 2 m)%string = m).
  { pose proof (substring_split m (String.length m - 2) ltac:(lia)) as H.
    replace (String.length m - (String.length m - 2))%nat with 2%nat in H by lia.
    exact H. }
  rewrite Hsplit, Hd'. cbn [option_map]. now rewrite Hv'.
Qed.

Lemma scaledNearest_nearest (m : positive) (e : Z) :
  0 <= scaledNearest m e 2
  /\ nearestHundredth (S754_finite false m e) (scaledNearest m e 2).
Proof.
  unfold scaledNearest, nearestHundredth.
  change (10 ^ 2) with 100.
  destruct (Z.leb_spec 0 e) as [He | He].
  - rewrite (Z.max_l 0 (- e)), (Z.max_r 0 e) by lia.
    assert (0 <= 2 ^ e) by (apply Z.pow_nonneg; lia). nia.
  - rewrite (Z.max_r 0 (- e)), (Z.max_l 0 e) by lia.
    replace (1 - e) with (Z.succ (- e)) by lia.
    rewrite Z.pow_succ_r by lia.
    assert (Hp : 0 < 2 ^ (- e)) by (apply Z.pow_pos_nonneg; lia).
    set (P := 2 ^ (- e)) in *. set (a := Zpos m * 100).
    pose proof (Z.div_mod (2 * a + P) (2 * P) ltac:(lia)) as Hdiv.
    pose proof (Z.mod_pos_bound (2 * a + P) (2 * P) ltac:(lia)) as Hmod.
    assert (0 <= (2 * a + P) / (2 * P)) by (apply Z.div_pos; lia).
    change (2 ^ 0) with 1. split; [assumption|]. nia.
Qed.

Lemma belowExponential_atLeast1e21 (s : bool) (m : positive) (e : Z) :
  belowExponential (S754_finite s m e) -> atLeast1e21 m e = false.
Proof.
  unfold belowExponential, atLeast1e21.
  destruct (Z.leb_spec 0 e) as [He | He]; intros H.
  - rewrite (Z.max_l 0 (- e)), (Z.max_r 0 e) in H by lia.
    apply Z.leb_gt. change (2 ^ 0) with 1 in H. lia.
  - rewrite (Z.max_r 0 (- e)), (Z.max_l 0 e) in H by lia.
    apply Z.leb_gt. change (2 ^ 0) with 1 in H. lia.
Qed.

(** [toFixed(2)] of a number that is at least zero, finite and below
    10^21 is a two-decimal numeral for the nearest hundredth. *)
Lemma toFixed_nearest_hundredth (x : number) :
  signedAs false x -> belowExponential x ->
  exists n, hundredths (toFixed x 2) = Some n /\ nearestHundredth x n.
Proof.
  intros [|m e|] Hbelow; cbn [toFixed]; try contradiction.
  - exists 0. split; reflexivity.
  - rewrite (belowExponential_atLeast1e21 false m e Hbelow).
    destruct (scaledNearest_nearest m e) as [Hn Hnear].
    change (Z.of_nat 2) with 2.
    exists (scaledNearest m e 2). split; [|exact Hnear].
    change (("" ++ fixedNotation (scaledNearest m e 2) 2)%string)
      with (fixedNotation (scaledNearest m e 2) 2).
    apply hundredths_fixedNotation. exact Hn.
Qed.

(** C1, as the code has it.  With both points in place and the later
    time value strictly greater, the readout is [toFixed(2)] of
    [sqrt(dLat^2 + dLon^2) * 111.32] divided by the elapsed hours.
    When that quotient is finite and below 10^21, the readout is a
    numeral with exactly two digits after the point whose value is the
    hundredth nearest to the quotient; an infinite quotient is shown as
    "Infinity" and a NaN one as "NaN". *)
Theorem calculateSpeedKmH_two_decimals (i : Z) (route : list RoutePoint)
    (prevPoint currPoint : RoutePoint) (tPrev tCurr : Z) :
  1 <= i ->
  index route (i - 1) = Some prevPoint ->
  index route i = Some currPoint ->
  timeValue Date_parse (timestamp prevPoint) = Some tPrev ->
  timeValue Date_parse (timestamp currPoint) = Some tCurr ->
  tPrev < tCurr ->
  let dLat := sub (lat currPoint) (lat prevPoint) in
  let dLon := sub (lng currPoint) (lng prevPoint) in
  let km := mul (sqrt (add (mul dLat dLat) (mul dLon dLon))) (ofDecimal 11132 2) in
  let hours := div (sub (ofZ tCurr) (ofZ tPrev)) (ofZ 3600000) in
  let speed := div km hours in
  (belowExponential speed ->
   exists n, hundredths (calculateSpeedKmH Date_parse i route) = Some n
             /\ nearestHundredth speed n)
  /\ (speed = S754_infinity false ->
      calculateSpeedKmH Date_parse i route = "Infinity"%string)
  /\ (speed = NaN -> calculateSpeedKmH Date_parse i route = "NaN"%string).
Proof.
  intros Hi Hprev Hcurr HtPrev HtCurr Hlt. cbv zeta.
  rewrite (calculateSpeedKmH_speed Date_parse i route prevPoint currPoint
             tPrev tCurr Hi Hprev Hcurr HtPrev HtCurr Hlt).
  cbv zeta.
  set (speed := div _ _).
  split; [|split]; [|intros ->; reflexivity | intros ->; reflexivity].
  intros Hbelow. apply toFixed_nearest_hundredth; [|exact Hbelow].
  destruct (elapsed_hours_test Date_parse _ _ _ _ HtPrev HtCurr) as [Hms Htest].
  replace (tCurr <=? tPrev) with false in Htest by (symmetry; apply Z.leb_gt; lia).
  unfold timeDeltaHours in Htest. rewrite Hms in Htest.
  destruct (calculateDistanceKm_nonnegative_or_NaN (lat prevPoint) (lng prevPoint)
              (lat currPoint) (lng currPoint)) as [Hnan | Hkm].
  - exfalso. unfold calculateDistanceKm in Hnan. cbv zeta in Hnan.
    unfold speed in Hbelow.
    change (ofDecimal 11132 2) with KM_PER_DEGREE in Hbelow.
    rewrite Hnan in Hbelow. exact Hbelow.
  - unfold calculateDistanceKm in Hkm. cbv zeta in Hkm.
    assert (Hhours : div (sub (ofZ tCurr) (ofZ tPrev)) MS_PER_HOUR <> NaN).
    { intros Hnan. unfold speed in Hbelow.
      change (ofZ 3600000) with MS_PER_HOUR in Hbelow.
      rewrite Hnan in Hbelow. unfold div in Hbelow.
      destruct (mul _ _) in Hbelow; exact Hbelow. }
    destruct (div_signed _ _ Hkm Htest Hhours) as [Hsigned | Hnan].
    + exact Hsigned.
    + exfalso. unfold speed in Hbelow.
      change (ofDecimal 11132 2) with KM_PER_DEGREE in Hbelow.
      change (ofZ 3600000) with MS_PER_HOUR in Hbelow.
      rewrite Hnan in Hbelow. exact Hbelow.
Qed.

End ReadoutFormat.

(** ** The timer discipline *)

Section Timers.

(** The condition under which the playback effect schedules a timer. *)
Definition armed (s : State) : bool :=
  isPlaying s && (0 <? jsLength (routeData s))
  && (currentIndex s <? jsLength (routeData s) - 1).

(** Every scheduled timer is the one [intervalRef] holds, and a timer is
    scheduled exactly when the component is playing with points left. *)
Definition timerInvariant (s : State) : Prop :=
  (forall id, id ∈ timers s -> intervalRef s = Some id)
  /\ (timers s <> ∅ <-> armed s = true).

Lemma playbackEffect_unfold s :
  playbackEffect s
  = if armed s
    then mkState (routeData s) (currentIndex s) (isPlaying s)
                 (Some (nextTimer s)) ({[ nextTimer s ]} ∪ timers s)
                 (S (nextTimer s)) (console s)
    else s.
Proof. unfold playbackEffect, armed. now destruct (_ && _ && _). Qed.

Lemma playbackEffect_fields s :
  routeData (playbackEffect s) = routeData s
  /\ currentIndex (playbackEffect s) = currentIndex s
  /\ isPlaying (playbackEffect s) = isPlaying s
  /\ console (playbackEffect s) = console s.
Proof. rewrite playbackEffect_unfold. now destruct (armed s). Qed.

Lemma playbackCleanup_fields s :
  routeData (playbackCleanup s) = routeData s
  /\ currentIndex (playbackCleanup s) = currentIndex s
  /\ isPlaying (playbackCleanup s) = isPlaying s
  /\ console (playbackCleanup s) = console s
  /\ intervalRef (playbackCleanup s) = intervalRef s.
Proof.
  unfold playbackCleanup, clearInterval.
  destruct (intervalRef s) eqn:Href; cbn; rewrite ?Href; repeat split; reflexivity.
Qed.

Lemma commit_fields e old new :
  routeData (commit e old new) = routeData new
  /\ currentIndex (commit e old new) = currentIndex new
  /\ isPlaying (commit e old new) = isPlaying new
  /\ console (commit e old new) = console new.
Proof.
  unfold commit. destruct (depsChanged e old new); [|tauto].
  destruct (playbackEffect_fields (playbackCleanup new)) as (-> & -> & -> & ->).
  destruct (playbackCleanup_fields new) as (-> & -> & -> & -> & _). tauto.
Qed.

(** The cleanup cancels every scheduled timer. *)
Lemma playbackCleanup_clears s :
  (forall id, id ∈ timers s -> intervalRef s = Some id) ->
  timers (playbackCleanup s) = ∅.
Proof.
  intros Href. unfold playbackCleanup, clearInterval.
  destruct (intervalRef s) as [i|] eqn:Hi; cbn [timers];
    apply elem_of_equiv_empty_L; intros id Hid.
  - apply elem_of_difference in Hid as [Hin Hne].
    apply Href in Hin. injection Hin as ->. set_solver.
  - apply Href in Hid. discriminate.
Qed.

Lemma playbackEffect_invariant s :
  timers s = ∅ -> timerInvariant (playbackEffect s).
Proof.
  intros Hnone. rewrite playbackEffect_unfold.
  destruct (armed s) eqn:Harmed; split; cbn [timers intervalRef].
  - intros id Hid. rewrite Hnone in Hid.
    apply elem_of_union in Hid as [Hid | Hid].
    + apply elem_of_singleton in Hid. now subst.
    + now apply not_elem_of_empty in Hid.
  - split; [intros _; exact Harmed | intros _; set_solver].
  - intros id Hid. rewrite Hnone in Hid. now apply not_elem_of_empty in Hid.
  - rewrite Harmed. split; [intros H; contradiction | discriminate].
Qed.

Lemma dispatch_timers e s new :
  dispatch e s = Some new ->
  timers new = timers s /\ intervalRef new = intervalRef s.
Proof.
  destruct e as [| | |[error|error|data]]; cbn [dispatch];
    try (intros [= <-]; split; reflexivity).
  destruct (decide (timers s = ∅)); [discriminate|].
  intros [= <-]. split; reflexivity.
Qed.

Lemma dispatch_routeData e s new :
  dispatch e s = Some new -> routeReplaced e = false ->
  routeData new = routeData s.
Proof.
  destruct e as [| | |[error|error|data]]; cbn [dispatch routeReplaced];
    try (intros [= <-] _; reflexivity); try discriminate.
  destruct (decide (timers s = ∅)); [discriminate|].
  intros [= <-] _. reflexivity.
Qed.

Lemma step_invariant e s s' :
  timerInvariant s -> step e s = Some s' -> timerInvariant s'.
Proof.
  intros [Href Harmed]. unfold step.
  destruct (dispatch e s) as [new|] eqn:Hd; [|discriminate].
  intros [= <-]. destruct (dispatch_timers _ _ _ Hd) as [Ht Hr].
  unfold commit. destruct (depsChanged e s new) eqn:Hdeps.
  - apply playbackEffect_invariant, playbackCleanup_clears.
    rewrite Ht, Hr. exact Href.
  - unfold depsChanged in Hdeps.
    apply orb_false_elim in Hdeps as [Hdeps Hroute].
    apply orb_false_elim in Hdeps as [Hplay Hindex].
    apply negb_false_iff, Bool.eqb_prop in Hplay.
    apply negb_false_iff, Z.eqb_eq in Hindex.
    pose proof (dispatch_routeData _ _ _ Hd Hroute) as Hdata.
    split; [rewrite Ht, Hr; exact Href|].
    unfold armed. rewrite Ht, <- Hplay, <- Hindex, Hdata. exact Harmed.
Qed.

Lemma initialState_invariant : timerInvariant initialState.
Proof.
  split; [intros id Hid; set_solver|].
  split; [intros H; contradiction | discriminate].
Qed.

Lemma run_invariant events : forall s s',
  timerInvariant s -> run events s = Some s' -> timerInvariant s'.
Proof.
  induction events as [|e rest IH]; intros s s' Hinv; cbn [run].
  - now intros [= <-].
  - destruct (step e s) as [s1|] eqn:Hstep; [|discriminate].
    apply IH. exact (step_invariant _ _ _ Hinv Hstep).
Qed.

Lemma invariant_at_most_one s : timerInvariant s -> (size (timers s) <= 1)%nat.
Proof.
  intros [Href _]. destruct (intervalRef s) as [i|] eqn:Hi.
  - rewrite <- (size_singleton (C := gset nat) i).
    apply subseteq_size. intros id Hid.
    apply Href in Hid. injection Hid as ->. set_solver.
  - replace (timers s) with (∅ : gset nat); [rewrite size_empty; lia|].
    symmetry. apply elem_of_equiv_empty_L. intros id Hid.
    apply Href in Hid. discriminate.
Qed.

Lemma invariant_idle s : timerInvariant s -> armed s = false -> timers s = ∅.
Proof.
  intros [_ Harmed] Hoff. destruct (decide (timers s = ∅)) as [|Hne]; [assumption|].
  apply Harmed in Hne. congruence.
Qed.

(** C5.  In every state the mounted component can reach there is at most
    one scheduled timer; and whenever a handler changes [isPlaying],
    [currentIndex] or the route, what follows is the cleanup, after
    which no timer is left, then the effect, which alone decides
    whether to schedule one. *)
Theorem at_most_one_timer (events : list Event) (s : State) :
  run events initialState = Some s ->
  (size (timers s) <= 1)%nat
  /\ forall e new,
       dispatch e s = Some new -> depsChanged e s new = true ->
       timers (playbackCleanup new) = ∅
       /\ step e s = Some (playbackEffect (playbackCleanup new))
       /\ (size (timers (playbackEffect (playbackCleanup new))) <= 1)%nat.
Proof.
  intros Hrun.
  pose proof (run_invariant _ _ _ initialState_invariant Hrun) as Hinv.
  split; [exact (invariant_at_most_one _ Hinv)|].
  intros e new Hd Hdeps.
  destruct (dispatch_timers _ _ _ Hd) as [Ht Hr].
  assert (Hclear : timers (playbackCleanup new) = ∅).
  { apply playbackCleanup_clears. rewrite Ht, Hr. apply Hinv. }
  split; [exact Hclear|]. split.
  - unfold step, commit. rewrite Hd, Hdeps. reflexivity.
  - apply invariant_at_most_one, playbackEffect_invariant, Hclear.
Qed.

End Timers.

(** ** Playback over a fixed route *)

Section Playback.

Lemma step_playback (r : list RoutePoint) e s s' :
  playbackEvent e = true -> r <> [] ->
  routeData s = r -> 0 <= currentIndex s <= jsLength r - 1 ->
  timerInvariant s -> step e s = Some s' ->
  routeData s' = r /\ 0 <= currentIndex s' <= jsLength r - 1.
Proof.
  intros He Hr Hdata Hidx [_ Harmed]. unfold step.
  destruct (dispatch e s) as [new|] eqn:Hd; [|discriminate].
  intros [= <-]. destruct (commit_fields e s new) as (-> & -> & _).
  destruct e as [| | |o]; cbn [dispatch] in Hd; try discriminate.
  - injection Hd as <-. cbn. split; [assumption | lia].
  - injection Hd as <-. cbn. split; [assumption|].
    destruct r; [contradiction | unfold jsLength; cbn [length]; lia].
  - destruct (decide (timers s = ∅)) as [|Hlive]; [discriminate|].
    injection Hd as <-. cbn. split; [assumption|].
    apply Harmed in Hlive. unfold armed in Hlive.
    apply andb_prop in Hlive as [_ Hlt]. apply Z.ltb_lt in Hlt.
    rewrite Hdata in Hlt. lia.
Qed.

Lemma run_playback (r : list RoutePoint) events : forall s s',
  forallb playbackEvent events = true -> r <> [] ->
  routeData s = r -> 0 <= currentIndex s <= jsLength r - 1 ->
  timerInvariant s -> run events s = Some s' ->
  routeData s' = r /\ 0 <= currentIndex s' <= jsLength r - 1 /\ timerInvariant s'.
Proof.
  induction events as [|e rest IH]; intros s s' Hev Hr Hdata Hidx Hinv; cbn [run].
  - intros [= <-]. tauto.
  - cbn [forallb] in Hev. apply andb_prop in Hev as [He Hrest].
    destruct (step e s) as [s1|] eqn:Hstep; [|discriminate].
    destruct (step_playback r e s s1 He Hr Hdata Hidx Hinv Hstep) as [Hdata1 Hidx1].
    apply IH; try assumption. exact (step_invariant _ _ _ Hinv Hstep).
Qed.

(** Ticks carry a playing component to the last index, where it stays
    playing with nothing scheduled. *)
Lemma ticks_to_end (r : list RoutePoint) (k : nat) : forall s,
  routeData s = r -> isPlaying s = true -> timerInvariant s ->
  0 <= currentIndex s -> currentIndex s + Z.of_nat k = jsLength r - 1 ->
  exists s', run (replicate k Tick) s = Some s'
    /\ currentIndex s' = jsLength r - 1 /\ isPlaying s' = true /\ timers s' = ∅.
Proof.
  induction k as [|k IH]; intros s Hdata Hplay Hinv Hlo Hend; cbn [replicate run].
  - exists s. repeat split; try assumption; [lia|].
    apply invariant_idle; [assumption|]. unfold armed. rewrite Hdata.
    replace (currentIndex s <? jsLength r - 1) with false
      by (symmetry; apply Z.ltb_ge; lia).
    apply andb_false_r.
  - assert (Harmed : armed s = true).
    { unfold armed. rewrite Hplay, Hdata. cbn [andb].
      apply andb_true_intro. split; apply Z.ltb_lt; lia. }
    assert (Hlive : timers s <> ∅) by (apply Hinv; exact Harmed).
    unfold step. cbn [dispatch].
    destruct (decide (timers s = ∅)) as [|_]; [contradiction|].
    set (new := setCurrentIndex (currentIndex s + 1) s).
    destruct (commit_fields Tick s new) as (Hd1 & Hi1 & Hp1 & _).
    apply IH.
    + rewrite Hd1. exact Hdata.
    + rewrite Hp1. exact Hplay.
    + apply (step_invariant Tick s); [assumption|].
      unfold step. cbn [dispatch].
      destruct (decide (timers s = ∅)) as [|_]; [contradiction | reflexivity].
    + rewrite Hi1. cbn. lia.
    + rewrite Hi1. cbn. lia.
Qed.

Lemma loadedState_invariant r : timerInvariant (loadedState r).
Proof.
  split; [intros id Hid; now apply not_elem_of_empty in Hid|].
  split; [intros H; contradiction | discriminate].
Qed.

(** C2.  Over a fixed non-empty route, from index 0 and stopped, clicks
    and ticks never take [currentIndex] past the last index.  At the
    last index no tick can fire and no timer is scheduled.  A tick
    leaves [isPlaying] as it was, so the run that plays to the end
    arrives there still playing. *)
Theorem playback_bounded (r : list RoutePoint) (events : list Event) (s : State) :
  r <> [] ->
  forallb playbackEvent events = true ->
  run events (loadedState r) = Some s ->
  0 <= currentIndex s <= jsLength r - 1
  /\ (currentIndex s = jsLength r - 1 -> step Tick s = None /\ timers s = ∅)
  /\ (forall s', step Tick s = Some s' ->
        currentIndex s' = currentIndex s + 1 /\ isPlaying s' = isPlaying s)
  /\ exists sEnd,
       run (ClickPlayPause :: replicate (length r - 1) Tick) (loadedState r)
       = Some sEnd
       /\ currentIndex sEnd = jsLength r - 1 /\ isPlaying sEnd = true
       /\ step Tick sEnd = None.
Proof.
  intros Hr Hev Hrun.
  assert (Hlen : 1 <= jsLength r)
    by (destruct r; [contradiction | unfold jsLength; cbn [length]; lia]).
  destruct (run_playback r events (loadedState r) s Hev Hr eq_refl
              ltac:(cbn; lia) (loadedState_invariant r) Hrun)
    as (Hdata & Hidx & Hinv).
  assert (Hlast : forall s0, timers s0 = ∅ -> step Tick s0 = None).
  { intros s0 H0. unfold step. cbn [dispatch].
    destruct (decide (timers s0 = ∅)); [reflexivity | contradiction]. }
  split; [exact Hidx|]. split; [|split].
  - intros Hend.
    assert (Hnone : timers s = ∅).
    { apply invariant_idle; [assumption|]. unfold armed. rewrite Hdata, Hend.
      rewrite Z.ltb_irrefl. apply andb_false_r. }
    split; [apply Hlast|]; exact Hnone.
  - intros s'. unfold step. cbn [dispatch].
    destruct (decide (timers s = ∅)); [discriminate|]. intros [= <-].
    destruct (commit_fields Tick s (setCurrentIndex (currentIndex s + 1) s))
      as (_ & -> & -> & _). split; reflexivity.
  - set (new := setIsPlaying (negb (isPlaying (loadedState r))) (loadedState r)).
    set (s1 := commit ClickPlayPause (loadedState r) new).
    assert (Hstep : step ClickPlayPause (loadedState r) = Some s1) by reflexivity.
    pose proof (step_invariant _ _ _ (loadedState_invariant r) Hstep) as Hinv1.
    destruct (commit_fields ClickPlayPause (loadedState r) new)
      as (Hd1 & Hi1 & Hp1 & _).
    fold s1 in Hd1, Hi1, Hp1.
    change (routeData new) with r in Hd1.
    change (currentIndex new) with 0 in Hi1.
    change (isPlaying new) with true in Hp1.
    destruct (ticks_to_end r (length r - 1) s1 Hd1 Hp1 Hinv1 ltac:(lia))
      as (sEnd & HrunEnd & HidxEnd & HplayEnd & HnoneEnd).
    { rewrite Hi1. unfold jsLength in *. lia. }
    exists sEnd. cbn [run]. rewrite Hstep.
    repeat split; try assumption. apply Hlast, HnoneEnd.
Qed.

End Playback.

(** ** Reset *)

Section Reset.

Lemma reset_fixpoint s :
  isPlaying s = false -> currentIndex s = 0 -> step ClickReset s = Some s.
Proof. destruct s. cbn. intros -> ->. reflexivity. Qed.

Lemma reset_from_invariant s :
  timerInvariant s ->
  exists s', step ClickReset s = Some s'
    /\ isPlaying s' = false /\ currentIndex s' = 0 /\ timers s' = ∅
    /\ routeData s' = routeData s.
Proof.
  intros Hinv. unfold step. cbn [dispatch].
  set (new := setCurrentIndex 0 (setIsPlaying false s)).
  exists (commit ClickReset s new). split; [reflexivity|].
  destruct (commit_fields ClickReset s new) as (Hd & Hi & Hp & _).
  repeat split; try assumption.
  unfold commit. destruct (depsChanged ClickReset s new) eqn:Hdeps.
  - rewrite playbackEffect_unfold.
    replace (armed (playbackCleanup new)) with false.
    + apply playbackCleanup_clears. apply Hinv.
    + unfold armed.
      destruct (playbackCleanup_fields new) as (_ & _ & -> & _). reflexivity.
  - unfold depsChanged in Hdeps. cbn in Hdeps.
    apply orb_false_elim in Hdeps as [Hdeps _].
    apply orb_false_elim in Hdeps as [Hplay _].
    apply negb_false_iff, Bool.eqb_prop in Hplay.
    apply (invariant_idle s Hinv). unfold armed. now rewrite Hplay.
Qed.

(** Whatever the route, the index and the playing flag, there is a
    state of the component with them: the one the effect leaves. *)
Lemma timerInvariant_any (r : list RoutePoint) (i : Z) (playing : bool) :
  exists s, routeData s = r /\ currentIndex s = i /\ isPlaying s = playing
            /\ timerInvariant s.
Proof.
  set (s0 := mkState r i playing None ∅ 1 []).
  exists (playbackEffect s0).
  destruct (playbackEffect_fields s0) as (-> & -> & -> & _).
  repeat split; try reflexivity; apply (playbackEffect_invariant s0 eq_refl).
Qed.

(** C6.  From every state, whatever its route, its index and its
    playing flag, Reset leads to [isPlaying = false] and
    [currentIndex = 0], leaving the route alone, and a second Reset
    changes nothing.  No timer is scheduled afterwards, the timers
    before being those the effect has left. *)
Theorem reset_from_every_state (s : State) :
  exists s', step ClickReset s = Some s'
    /\ isPlaying s' = false /\ currentIndex s' = 0
    /\ routeData s' = routeData s
    /\ step ClickReset s' = Some s'
    /\ run [ClickReset; ClickReset] s = run [ClickReset] s
    /\ (timerInvariant s -> timers s' = ∅).
Proof.
  set (new := setCurrentIndex 0 (setIsPlaying false s)).
  set (s' := commit ClickReset s new).
  assert (Hstep : step ClickReset s = Some s') by reflexivity.
  destruct (commit_fields ClickReset s new) as (Hd & Hi & Hp & _).
  fold s' in Hd, Hi, Hp.
  change (routeData new) with (routeData s) in Hd.
  change (currentIndex new) with 0 in Hi.
  change (isPlaying new) with false in Hp.
  pose proof (reset_fixpoint s' Hp Hi) as Hagain.
  exists s'. split; [exact Hstep|]. split; [exact Hp|]. split; [exact Hi|].
  split; [exact Hd|]. split; [exact Hagain|]. split.
  - cbn [run]. rewrite Hstep, Hagain. reflexivity.
  - intros Hinv.
    destruct (reset_from_invariant s Hinv) as (s'' & Hstep' & _ & _ & Ht & _).
    rewrite Hstep in Hstep'. injection Hstep' as <-. exact Ht.
Qed.

End Reset.

(** ** A failed load *)

Definition rejected (inJson : bool) (error : string) : FetchOutcome :=
  if inJson then JsonRejected error else FetchRejected error.

(** C7.  When [fetch] or [response.json()] rejects, [loadData] catches
    the error: the event goes through, the console gains one
    [console.error] entry carrying the error, and the route, the index,
    the playing flag and the timers are as before, so the route is
    still empty after a failed first load. *)
Theorem load_failure_keeps_route (inJson : bool) (error : string) (s : State) :
  step (LoadSettled (rejected inJson error)) s
  = Some (loadData (rejected inJson error) s)
  /\ console (loadData (rejected inJson error) s)
     = console s ++ [ConsoleError "Error loading route data:" error]
  /\ routeData (loadData (rejected inJson error) s) = routeData s
  /\ currentIndex (loadData (rejected inJson error) s) = currentIndex s
  /\ isPlaying (loadData (rejected inJson error) s) = isPlaying s
  /\ intervalRef (loadData (rejected inJson error) s) = intervalRef s
  /\ timers (loadData (rejected inJson error) s) = timers s
  /\ nextTimer (loadData (rejected inJson error) s) = nextTimer s
  /\ routeData (loadData (rejected inJson error) initialState) = [].
Proof.
  destruct inJson; cbn [rejected];
    unfold step, commit, depsChanged; cbn;
    rewrite eqb_reflx, Z.eqb_refl; cbn; repeat split; reflexivity.
Qed.

(** ** An index outside the route *)

Section OutOfRange.
Variable Date_parse : string -> option Z.

(** Whether every read of one render falls inside the array. *)
Definition readsInBounds (s : State) : bool :=
  forallb (inBounds (routeData s)) (renderReads Date_parse s).

Lemma index_beyond {A : Type} (arr : list A) (i : Z) :
  jsLength arr <= i -> index arr i = None.
Proof.
  unfold index, jsLength. intros Hle.
  destruct (Z.ltb_spec i 0) as [|Hi]; [reflexivity|].
  apply lookup_ge_None. lia.
Qed.

(** C9, as the code has it.  A route replaced by one that ends at or
    before [currentIndex] leaves the index where it was.  The next
    render reads the array at that index all the same; the read finds
    nothing, the current position falls back to the default point and
    the speed to "0.00", and the effect schedules no new timer. *)
Theorem replaced_route_out_of_range (s : State) (data : list Resource.Point) :
  jsLength data <= currentIndex s ->
  exists s', step (LoadSettled (Fetched data)) s = Some s'
    /\ routeData s' = map normalize data
    /\ currentIndex s' = currentIndex s
    /\ nextTimer s' = nextTimer s
    /\ In (currentIndex s') (renderReads Date_parse s')
    /\ index (routeData s') (currentIndex s') = None
    /\ currentPosition s' = defaultPosition
    /\ speedReadout Date_parse s' = "0.00"%string.
Proof.
  intros Hle. unfold step. cbn [dispatch].
  set (new := loadData (Fetched data) s).
  set (s' := commit (LoadSettled (Fetched data)) s new).
  exists s'. split; [reflexivity|].
  destruct (commit_fields (LoadSettled (Fetched data)) s new) as (Hd & Hi & _).
  fold s' in Hd, Hi.
  change (routeData new) with (map normalize data) in Hd.
  change (currentIndex new) with (currentIndex s) in Hi.
  assert (Hbeyond : jsLength (map normalize data) <= currentIndex s)
    by (unfold jsLength in *; rewrite length_map; exact Hle).
  assert (Hnone : index (map normalize data) (currentIndex s) = None)
    by (apply index_beyond; exact Hbeyond).
  split; [exact Hd|]. split; [exact Hi|]. split; [|split; [|split; [|split]]].
  - unfold s', commit.
    replace (depsChanged (LoadSettled (Fetched data)) s new) with true
      by (unfold depsChanged; cbn; now rewrite orb_true_r).
    rewrite playbackEffect_unfold.
    replace (armed (playbackCleanup new)) with false.
    + unfold playbackCleanup, clearInterval. now destruct (intervalRef new).
    + unfold armed.
      destruct (playbackCleanup_fields new) as (-> & -> & _). cbn.
      replace (currentIndex s <? jsLength (map normalize data) - 1) with false
        by (symmetry; apply Z.ltb_ge; lia).
      now rewrite andb_false_r.
  - left. reflexivity.
  - rewrite Hd, Hi. exact Hnone.
  - unfold currentPosition. rewrite Hd, Hi, Hnone. reflexivity.
  - unfold speedReadout. rewrite Hd, Hi.
    apply calculateSpeedKmH_undefined. exact Hnone.
Qed.

End OutOfRange.

(** * Scenarios *)

(** Two points an hour apart, a thousandth of a degree apart each way. *)
Definition startPoint : RoutePoint :=
  mkPoint (ofZ 0) (ofZ 0) (Some "2024-01-01T00:00:00Z"%string).

Definition hourLaterPoint : RoutePoint :=
  mkPoint (ofDecimal 1 3) (ofDecimal 1 3) (Some "2024-01-01T01:00:00Z"%string).

Definition scenarioA : list RoutePoint := [startPoint; hourLaterPoint].

Example scenarioA_speed :
  calculateSpeedKmH IsoDate.parse 1 scenarioA = "0.16"%string.
Proof. vm_compute. reflexivity. Qed.

Example scenarioA_playback :
  exists s, run [ClickPlayPause; Tick] (loadedState scenarioA) = Some s
    /\ currentIndex s = 1 /\ isPlaying s = true /\ timers s = ∅.
Proof. eexists. repeat split. Qed.

Example scenarioB_empty_route :
  currentPosition initialState = defaultPosition
  /\ speedReadout IsoDate.parse initialState = "0.00"%string.
Proof. split; reflexivity. Qed.

Lemma calculateSpeedKmH_speed_witness :
  (1 <= 1
   /\ index scenarioA (1 - 1) = Some startPoint
   /\ index scenarioA 1 = Some hourLaterPoint
   /\ timeValue IsoDate.parse (timestamp startPoint) = Some 1704067200000
   /\ timeValue IsoDate.parse (timestamp hourLaterPoint) = Some 1704070800000
   /\ 1704067200000 < 1704070800000)
  /\ calculateSpeedKmH IsoDate.parse 1 scenarioA
     = toFixed
         (div (mul (sqrt (add (mul (sub (ofDecimal 1 3) (ofZ 0))
                                   (sub (ofDecimal 1 3) (ofZ 0)))
                              (mul (sub (ofDecimal 1 3) (ofZ 0))
                                   (sub (ofDecimal 1 3) (ofZ 0)))))
                   (ofDecimal 11132 2))
              (div (sub (ofZ 1704070800000) (ofZ 1704067200000)) (ofZ 3600000)))
         2.
Proof.
  split.
  - repeat split; solve [lia | vm_compute; reflexivity].
  - apply (calculateSpeedKmH_speed IsoDate.parse 1 scenarioA
             startPoint hourLaterPoint 1704067200000 1704070800000);
      solve [lia | vm_compute; reflexivity].
Defined.

(** A jump of 10^30 degrees of latitude in one hour, and one of 10^200
    degrees: the first speed is beyond 10^21, the second overflows. *)
Definition jump (degrees : Z) : list RoutePoint :=
  [startPoint;
   mkPoint (ofZ degrees) (ofZ 0) (Some "2024-01-01T01:00:00Z"%string)].

Lemma calculateSpeedKmH_not_two_decimals :
  (1 <= 1
   /\ index (jump (10 ^ 30)) (1 - 1) = Some startPoint
   /\ index (jump (10 ^ 30)) 1
      = Some (mkPoint (ofZ (10 ^ 30)) (ofZ 0) (Some "2024-01-01T01:00:00Z"%string))
   /\ timeValue IsoDate.parse (timestamp startPoint) = Some 1704067200000
   /\ timeValue IsoDate.parse (Some "2024-01-01T01:00:00Z"%string)
      = Some 1704070800000
   /\ 1704067200000 < 1704070800000)
  /\ calculateSpeedKmH IsoDate.parse 1 (jump (10 ^ 30)) = "1.1132e+32"%string
  /\ hundredths (calculateSpeedKmH IsoDate.parse 1 (jump (10 ^ 30))) = None
  /\ calculateSpeedKmH IsoDate.parse 1 (jump (10 ^ 200)) = "Infinity"%string
  /\ hundredths (calculateSpeedKmH IsoDate.parse 1 (jump (10 ^ 200))) = None.
Proof.
  split; [repeat split; solve [lia | vm_compute; reflexivity]|].
  repeat split; vm_compute; reflexivity.
Qed.

Lemma calculateSpeedKmH_two_decimals_witness :
  (1 <= 1
   /\ index scenarioA (1 - 1) = Some startPoint
   /\ index scenarioA 1 = Some hourLaterPoint
   /\ timeValue IsoDate.parse (timestamp startPoint) = Some 1704067200000
   /\ timeValue IsoDate.parse (timestamp hourLaterPoint) = Some 1704070800000
   /\ 1704067200000 < 1704070800000
   /\ belowExponential
        (div (mul (sqrt (add (mul (sub (ofDecimal 1 3) (ofZ 0))
                                  (sub (ofDecimal 1 3) (ofZ 0)))
                             (mul (sub (ofDecimal 1 3) (ofZ 0))
                                  (sub (ofDecimal 1 3) (ofZ 0)))))
                  (ofDecimal 11132 2))
             (div (sub (ofZ 1704070800000) (ofZ 1704067200000)) (ofZ 3600000))))
  /\ calculateSpeedKmH IsoDate.parse 1 scenarioA = "0.16"%string
  /\ hundredths (calculateSpeedKmH IsoDate.parse 1 scenarioA) = Some 16
  /\ exists n, hundredths (calculateSpeedKmH IsoDate.parse 1 scenarioA) = Some n
       /\ nearestHundredth
            (div (mul (sqrt (add (mul (sub (ofDecimal 1 3) (ofZ 0))
                                      (sub (ofDecimal 1 3) (ofZ 0)))
                                 (mul (sub (ofDecimal 1 3) (ofZ 0))
                                      (sub (ofDecimal 1 3) (ofZ 0)))))
                      (ofDecimal 11132 2))
                 (div (sub (ofZ 1704070800000) (ofZ 1704067200000))
                      (ofZ 3600000)))
            n.
Proof.
  split.
  { split; [lia|]. split; [reflexivity|]. split; [reflexivity|].
    split; [vm_compute; reflexivity|]. split; [vm_compute; reflexivity|].
    split; [lia | vm_compute; reflexivity]. }
  split; [vm_compute; reflexivity|]. split; [vm_compute; reflexivity|].
  apply (calculateSpeedKmH_two_decimals IsoDate.parse 1 scenarioA
           startPoint hourLaterPoint 1704067200000 1704070800000).
  - lia.
  - reflexivity.
  - reflexivity.
  - vm_compute. reflexivity.
  - vm_compute. reflexivity.
  - lia.
  - vm_compute. reflexivity.
Defined.

(** The same two points with the timestamps exchanged. *)
Definition backwards : list RoutePoint :=
  [mkPoint (ofZ 0) (ofZ 0) (Some "2024-01-01T01:00:00Z"%string);
   mkPoint (ofDecimal 1 3) (ofDecimal 1 3) (Some "2024-01-01T00:00:00Z"%string)].

Lemma calculateSpeedKmH_not_available_witness :
  (1 <= 1
   /\ index backwards (1 - 1)
      = Some (mkPoint (ofZ 0) (ofZ 0) (Some "2024-01-01T01:00:00Z"%string))
   /\ index backwards 1
      = Some (mkPoint (ofDecimal 1 3) (ofDecimal 1 3)
                (Some "2024-01-01T00:00:00Z"%string))
   /\ timeValue IsoDate.parse (Some "2024-01-01T01:00:00Z"%string)
      = Some 1704070800000
   /\ timeValue IsoDate.parse (Some "2024-01-01T00:00:00Z"%string)
      = Some 1704067200000
   /\ 1704067200000 <= 1704070800000)
  /\ calculateSpeedKmH IsoDate.parse 1 backwards = "N/A"%string.
Proof.
  split.
  - repeat split; solve [lia | vm_compute; reflexivity].
  - apply (calculateSpeedKmH_not_available IsoDate.parse 1 backwards
             (mkPoint (ofZ 0) (ofZ 0) (Some "2024-01-01T01:00:00Z"%string))
             (mkPoint (ofDecimal 1 3) (ofDecimal 1 3)
                (Some "2024-01-01T00:00:00Z"%string))
             1704070800000 1704067200000);
      solve [lia | vm_compute; reflexivity].
Defined.

Lemma calculateSpeedKmH_zero_witness :
  (5 = 0 \/ jsLength scenarioA <= 1
   \/ index scenarioA 5 = None \/ index scenarioA (5 - 1) = None)
  /\ calculateSpeedKmH IsoDate.parse 5 scenarioA = "0.00"%string.
Proof.
  assert (H : 5 = 0 \/ jsLength scenarioA <= 1
              \/ index scenarioA 5 = None \/ index scenarioA (5 - 1) = None)
    by (right; right; left; reflexivity).
  split; [exact H | exact (calculateSpeedKmH_zero IsoDate.parse 5 scenarioA H)].
Defined.

(** C8, where the code parts from it.  A timestamp that is not a date
    gives the elapsed time NaN; [NaN <= 0] is false, so the guard lets it
    through and the readout is the string "NaN". *)
Theorem calculateSpeedKmH_NaN_readout :
  calculateSpeedKmH IsoDate.parse 1
    [mkPoint (ofZ 0) (ofZ 0) (Some "yesterday"%string);
     mkPoint (ofDecimal 1 3) (ofDecimal 1 3) (Some "2024-01-01T01:00:00Z"%string)]
  = "NaN"%string.
Proof. vm_compute. reflexivity. Qed.

(** Coordinates large enough for the squares to overflow give the
    readout "Infinity". *)
Example calculateSpeedKmH_Infinity_readout :
  calculateSpeedKmH IsoDate.parse 1
    [mkPoint (ofZ 0) (ofZ 0) (Some "2024-01-01T00:00:00Z"%string);
     mkPoint (ofZ (10 ^ 200)) (ofZ 0) (Some "2024-01-01T01:00:00Z"%string)]
  = "Infinity"%string.
Proof. vm_compute. reflexivity. Qed.

Lemma playback_bounded_witness :
  (scenarioA <> []
   /\ forallb playbackEvent [ClickPlayPause; Tick; ClickPlayPause] = true)
  /\ exists s,
       run [ClickPlayPause; Tick; ClickPlayPause] (loadedState scenarioA) = Some s
       /\ 0 <= currentIndex s <= jsLength scenarioA - 1.
Proof.
  split; [split; [discriminate | reflexivity]|].
  eexists. split; [vm_compute; reflexivity|].
  eapply (playback_bounded scenarioA [ClickPlayPause; Tick; ClickPlayPause]);
    [discriminate | reflexivity | vm_compute; reflexivity].
Defined.

Definition scenarioAResource : list Resource.Point :=
  [Resource.mkPoint (ofZ 0) (ofZ 0) "2024-01-01T00:00:00Z";
   Resource.mkPoint (ofDecimal 1 3) (ofDecimal 1 3) "2024-01-01T01:00:00Z"].

Lemma at_most_one_timer_witness :
  exists s,
    run [ClickPlayPause; LoadSettled (Fetched scenarioAResource)] initialState
    = Some s
    /\ (size (timers s) <= 1)%nat.
Proof.
  eexists. split; [vm_compute; reflexivity|].
  eapply (at_most_one_timer
            [ClickPlayPause; LoadSettled (Fetched scenarioAResource)]).
  vm_compute. reflexivity.
Defined.

(** Reset at index 3 of five points, while playing with timer 7
    scheduled. *)
Definition playingAtThree : State :=
  mkState (replicate 5 startPoint) 3 true (Some 7%nat) {[ 7%nat ]} 8 [].

Lemma reset_from_every_state_witness :
  timerInvariant playingAtThree
  /\ currentIndex playingAtThree = 3 /\ timers playingAtThree <> ∅
  /\ exists s', step ClickReset playingAtThree = Some s'
       /\ isPlaying s' = false /\ currentIndex s' = 0 /\ timers s' = ∅.
Proof.
  assert (Hinv : timerInvariant playingAtThree).
  { split.
    - intros id Hid. unfold playingAtThree in Hid. cbn [timers] in Hid.
      apply elem_of_singleton in Hid. now subst.
    - split; [intros _; reflexivity | intros _; vm_compute; discriminate]. }
  split; [exact Hinv|]. split; [reflexivity|].
  split; [vm_compute; discriminate|].
  destruct (reset_from_every_state playingAtThree)
    as (s' & Hstep & Hp & Hi & _ & _ & _ & Ht).
  exists s'. repeat split; try assumption. exact (Ht Hinv).
Defined.

(** A three-point route played to its end, then replaced by a route of
    one point: the index stays at 2, and the render reads the
    one-element array at 2. *)
Definition threePointResource : list Resource.Point :=
  [Resource.mkPoint (ofZ 0) (ofZ 0) "2024-01-01T00:00:00Z";
   Resource.mkPoint (ofDecimal 1 3) (ofDecimal 1 3) "2024-01-01T01:00:00Z";
   Resource.mkPoint (ofDecimal 2 3) (ofDecimal 2 3) "2024-01-01T02:00:00Z"].

Definition onePointResource : list Resource.Point :=
  [Resource.mkPoint (ofZ 0) (ofZ 0) "2024-01-01T00:00:00Z"].

Lemma replaced_route_read_out_of_bounds :
  exists s,
    run [LoadSettled (Fetched threePointResource); ClickPlayPause; Tick; Tick;
         LoadSettled (Fetched onePointResource)] initialState = Some s
    /\ currentIndex s = 2
    /\ jsLength (routeData s) = 1
    /\ renderReads IsoDate.parse s = [2]
    /\ readsInBounds IsoDate.parse s = false.
Proof. eexists. split; [vm_compute; reflexivity|]. repeat split. Qed.

Lemma replaced_route_out_of_range_witness :
  jsLength onePointResource <= currentIndex (setCurrentIndex 2 initialState)
  /\ exists s',
       step (LoadSettled (Fetched onePointResource)) (setCurrentIndex 2 initialState)
       = Some s'
       /\ currentIndex s' = 2
       /\ currentPosition s' = defaultPosition
       /\ speedReadout IsoDate.parse s' = "0.00"%string.
Proof.
  assert (H : jsLength onePointResource
              <= currentIndex (setCurrentIndex 2 initialState))
    by (vm_compute; discriminate).
  split; [exact H|].
  destruct (replaced_route_out_of_range IsoDate.parse
              (setCurrentIndex 2 initialState) onePointResource H)
    as (s' & Hstep & _ & Hi & _ & _ & _ & Hpos & Hspeed).
  exists s'. repeat split; assumption.
Defined.

(** * The rest of the component

    What the component draws, and what happens when it is unmounted. *)

(** ** What is drawn *)

(** [routeData.map(point => [point.lat, point.lng])] *)
Definition fullRouteCoords (r : list RoutePoint) : list (number * number) :=
  map (fun point => (lat point, lng point)) r.

(** Truthiness of a timestamp: [null] and the empty string are falsy. *)
Definition truthy (v : option string) : bool :=
  match v with
  | Some str => negb (str =? "")%string
  | None => false
  end.

(** The parts of the rendered tree that depend on the state: the
    positions of the polyline when it is drawn, the position of the
    marker (the current position is an object, so the marker is always
    drawn), the three readouts of the status panel and the play button. *)
Record View : Type := mkView {
  polyline : option (list (number * number));
  marker : number * number;
  coordinateText : string;
  timestampText : string;
  speedText : string;
  buttonLabel : string;
  buttonColor : string
}.

Section View.
Variable Date_parse : string -> option Z.

(** [toLocaleTimeString] on a valid date: its output depends on the
    locale and the time zone of the browser. *)
Variable toLocaleTimeString : Z -> string.

(** [timestamp ? new Date(timestamp).toLocaleTimeString() : 'N/A'] *)
Definition timestampReadout (point : RoutePoint) : string :=
  if truthy (timestamp point) then
    match timeValue Date_parse (timestamp point) with
    | Some t => toLocaleTimeString t
    | None => "Invalid Date"
    end
  else "N/A".

Definition render (s : State) : View :=
  let position := currentPosition s in
  mkView
    (if 0 <? jsLength (routeData s) then Some (fullRouteCoords (routeData s))
     else None)
    (lat position, lng position)
    (toFixed (lat position) 6 ++ ", " ++ toFixed (lng position) 6)
    (timestampReadout position)
    (calculateSpeedKmH Date_parse (currentIndex s) (routeData s) ++ " km/h")
    (if isPlaying s then "Pause" else "Play")
    (if isPlaying s then "#ef4444" else "#22c55e").
End View.

(** ** Unmounting

    React runs the cleanup of the playback effect one last time. *)
Definition unmount (s : State) : State := playbackCleanup s.

(** The first character of a string, if any. *)
Definition firstChar (str : string) : option ascii :=
  match str with
  | String c _ => Some c
  | EmptyString => None
  end.

(** * Further properties *)

(** ** Distances *)

Section MoreDistance.

Lemma sub_self (x : number) : isFinite x = true -> sub x x = S754_zero false.
Proof.
  unfold sub. destruct x as [[] | | | s m e]; cbn [isFinite SFsub];
    try discriminate; try reflexivity.
  intros _. rewrite Z.sub_diag. reflexivity.
Qed.

Lemma sub_self_not_finite (x : number) : isFinite x = false -> sub x x = NaN.
Proof. destruct x as [| [] | |]; cbn; try discriminate; reflexivity. Qed.

(** X1.  The distance from a point to itself is zero when both
    coordinates are finite, and NaN otherwise. *)
Theorem calculateDistanceKm_same_point (lat0 lon0 : number) :
  calculateDistanceKm lat0 lon0 lat0 lon0
  = if isFinite lat0 && isFinite lon0 then ofZ 0 else NaN.
Proof.
  unfold calculateDistanceKm. cbv zeta.
  destruct (isFinite lat0) eqn:Hlat, (isFinite lon0) eqn:Hlon; cbn [andb].
  - rewrite !sub_self by assumption. reflexivity.
  - rewrite sub_self by assumption. rewrite sub_self_not_finite by assumption.
    reflexivity.
  - rewrite sub_self_not_finite by assumption. reflexivity.
  - rewrite sub_self_not_finite by assumption. reflexivity.
Qed.

End MoreDistance.

(** ** Whole degrees along a meridian *)

Section Meridian.

Definition number_eqb (x y : number) : bool :=
  match x, y with
  | S754_zero s, S754_zero s' => Bool.eqb s s'
  | S754_infinity s, S754_infinity s' => Bool.eqb s s'
  | S754_nan, S754_nan => true
  | S754_finite s m e, S754_finite s' m' e' =>
      Bool.eqb s s' && (m =? m')%positive && (e =? e')
  | _, _ => false
  end.

Lemma number_eqb_eq (x y : number) : number_eqb x y = true -> x = y.
Proof.
  destruct x as [s | s | | s m e], y as [s' | s' | | s' m' e']; cbn;
    try discriminate; try reflexivity.
  - intros H. apply Bool.eqb_prop in H. now subst.
  - intros H. apply Bool.eqb_prop in H. now subst.
  - intros H. apply andb_prop in H as [H He]. apply andb_prop in H as [Hs Hm].
    apply Bool.eqb_prop in Hs. apply Pos.eqb_eq in Hm. apply Z.eqb_eq in He.
    now subst.
Qed.

(** The distance between latitudes [a] and [b] on one meridian, once the
    longitudes have cancelled. *)
Definition meridianKm (a b : Z) : number :=
  let dLat := sub (ofZ b) (ofZ a) in
  mul (sqrt (add (mul dLat dLat) (S754_zero false))) KM_PER_DEGREE.

Definition latitudes : list Z := seqZ (-90) 181.

Lemma meridian_table :
  forallb (fun a =>
    forallb (fun b =>
      number_eqb (meridianKm a b) (mul (ofZ (Z.abs (b - a))) KM_PER_DEGREE))
      latitudes) latitudes = true.
Proof. vm_compute. reflexivity. Qed.

Lemma latitudes_spec (a : Z) : -90 <= a <= 90 -> In a latitudes.
Proof.
  intros Ha. apply list_elem_of_In, elem_of_seqZ. lia.
Qed.

(** X2.  Between two whole-degree latitudes on one meridian the
    distance is the number of degrees apart times 111.32, rounded once:
    squaring the difference and taking the root gives the difference
    back exactly. *)
Theorem calculateDistanceKm_meridian (a b : Z) (lon : number) :
  -90 <= a <= 90 -> -90 <= b <= 90 -> isFinite lon = true ->
  calculateDistanceKm (ofZ a) lon (ofZ b) lon
  = mul (ofZ (Z.abs (b - a))) KM_PER_DEGREE.
Proof.
  intros Ha Hb Hlon. unfold calculateDistanceKm. cbv zeta.
  rewrite (sub_self lon Hlon).
  change (mul (S754_zero false) (S754_zero false)) with (S754_zero false).
  apply number_eqb_eq.
  pose proof meridian_table as Htable.
  rewrite forallb_forall in Htable.
  specialize (Htable a (latitudes_spec a Ha)).
  rewrite forallb_forall in Htable.
  exact (Htable b (latitudes_spec b Hb)).
Qed.

End Meridian.

Lemma calculateDistanceKm_meridian_witness :
  (-90 <= 17 <= 90 /\ -90 <= 19 <= 90 /\ isFinite (ofZ 78) = true)
  /\ calculateDistanceKm (ofZ 17) (ofZ 78) (ofZ 19) (ofZ 78)
     = mul (ofZ (Z.abs (19 - 17))) KM_PER_DEGREE.
Proof.
  split; [repeat split; solve [lia | reflexivity]|].
  apply (calculateDistanceKm_meridian 17 19 (ofZ 78)); solve [lia | reflexivity].
Defined.

(** ** Speeds *)

Section MoreSpeed.
Variable Date_parse : string -> option Z.

Lemma div_finite_not_NaN s m e s' m' e' :
  div (S754_finite s m e) (S754_finite s' m' e') <> NaN.
Proof.
  unfold div. cbn [SFdiv]. unfold SFdiv_core_binary.
  set (n := match _ - _ - _ with Z0 => _ | Zpos _ => _ | Zneg _ => _ end).
  assert (Hn : 0 <= n).
  { unfold n. destruct (_ - _ - _) as [|p|p]; try lia.
    apply Z.shiftl_nonneg. lia. }
  pose proof (Z.div_pos n (Zpos m') Hn ltac:(lia)) as Hq.
  unfold Z.div in Hq. destruct (Z.div_eucl n (Zpos m')) as [q r].
  pose proof (binary_round_aux_signed (xorb s s') q
                (Z.min (fexp prec emax (Zdigits2 (Zpos m) + e - (Zdigits2 (Zpos m') + e')))
                       (e - e'))
                (new_location (Zpos m') r) Hq) as Hsigned.
  intros Hnan. unfold NaN in Hnan. rewrite Hnan in Hsigned. inversion Hsigned.
Qed.

(** The elapsed hours between two valid, increasing time values are a
    positive number: finite or [+Infinity], never zero or NaN. *)
Lemma elapsed_hours_positive prevPoint currPoint tPrev tCurr :
  timeValue Date_parse (timestamp prevPoint) = Some tPrev ->
  timeValue Date_parse (timestamp currPoint) = Some tCurr ->
  tPrev < tCurr ->
  timeDeltaHours Date_parse prevPoint currPoint = S754_infinity false
  \/ exists m e, timeDeltaHours Date_parse prevPoint currPoint = S754_finite false m e.
Proof.
  intros Hprev Hcurr Hlt.
  destruct (elapsed_hours_test Date_parse _ _ _ _ Hprev Hcurr) as [Hms Htest].
  replace (tCurr <=? tPrev) with false in Htest by (symmetry; apply Z.leb_gt; lia).
  destruct (sub_ofZ tPrev tCurr (timeValue_bound _ _ _ Hprev)
              (timeValue_bound _ _ _ Hcurr)) as [_ Hne].
  specialize (Hne ltac:(lia)).
  replace (tCurr <? tPrev) with false in Hne by (symmetry; apply Z.ltb_ge; lia).
  unfold timeDeltaHours in *. rewrite Hms in *.
  destruct Hne as [Hinf | (m & e & Hfin & _)].
  - rewrite Hinf in *. left. reflexivity.
  - rewrite Hfin in *.
    pose proof (div_finite_not_NaN false m e false
                  7730941132800000 (-31)) as Hnan.
    change (S754_finite false 7730941132800000 (-31)) with MS_PER_HOUR in Hnan.
    destruct (div (S754_finite false m e) MS_PER_HOUR)
      as [sz | [] | | [] mz ez]; try discriminate; try contradiction.
    + left. reflexivity.
    + right. eauto.
Qed.

(** X3.  A vehicle that has not moved between two points with valid,
    increasing timestamps is shown at "0.00". *)
Theorem calculateSpeedKmH_stationary (i : Z) (route : list RoutePoint)
    (prevPoint currPoint : RoutePoint) (tPrev tCurr : Z) :
  1 <= i ->
  index route (i - 1) = Some prevPoint ->
  index route i = Some currPoint ->
  timeValue Date_parse (timestamp prevPoint) = Some tPrev ->
  timeValue Date_parse (timestamp currPoint) = Some tCurr ->
  tPrev < tCurr ->
  lat currPoint = lat prevPoint -> lng currPoint = lng prevPoint ->
  isFinite (lat prevPoint) = true -> isFinite (lng prevPoint) = true ->
  calculateSpeedKmH Date_parse i route = "0.00"%string.
Proof.
  intros Hi Hprev Hcurr HtPrev HtCurr Hlt Hlat Hlng Hflat Hflng.
  unfold calculateSpeedKmH.
  rewrite (first_guard_passed i route _ _ Hi Hprev Hcurr), Hprev, Hcurr.
  destruct (elapsed_hours_test Date_parse _ _ _ _ HtPrev HtCurr) as [_ Htest].
  rewrite Htest.
  replace (tCurr <=? tPrev) with false by (symmetry; apply Z.leb_gt; lia).
  unfold distanceKm. rewrite Hlat, Hlng, calculateDistanceKm_same_point.
  rewrite Hflat, Hflng. cbn [andb].
  destruct (elapsed_hours_positive _ _ _ _ HtPrev HtCurr Hlt)
    as [-> | (m & e & ->)]; reflexivity.
Qed.

(** X5.  Swapping the coordinates of two consecutive points of a
    route, the timestamps staying where they are, does not change the
    readout at the later of the two: the direction of travel plays no
    part. *)
Theorem calculateSpeedKmH_direction (i : Z) (route swapped : list RoutePoint)
    (prevPoint currPoint : RoutePoint) :
  1 <= i ->
  index route (i - 1) = Some prevPoint ->
  index route i = Some currPoint ->
  index swapped (i - 1)
  = Some (mkPoint (lat currPoint) (lng currPoint) (timestamp prevPoint)) ->
  index swapped i
  = Some (mkPoint (lat prevPoint) (lng prevPoint) (timestamp currPoint)) ->
  calculateSpeedKmH Date_parse i swapped = calculateSpeedKmH Date_parse i route.
Proof.
  intros Hi Hprev Hcurr Hprev' Hcurr'. unfold calculateSpeedKmH.
  rewrite (first_guard_passed i route _ _ Hi Hprev Hcurr), Hprev, Hcurr.
  rewrite (first_guard_passed i swapped _ _ Hi Hprev' Hcurr'), Hprev', Hcurr'.
  change (timeDeltaHours Date_parse
            (mkPoint (lat currPoint) (lng currPoint) (timestamp prevPoint))
            (mkPoint (lat prevPoint) (lng prevPoint) (timestamp currPoint)))
    with (timeDeltaHours Date_parse prevPoint currPoint).
  assert (Hkm : distanceKm
                  (mkPoint (lat currPoint) (lng currPoint) (timestamp prevPoint))
                  (mkPoint (lat prevPoint) (lng prevPoint) (timestamp currPoint))
                = distanceKm prevPoint currPoint).
  { unfold distanceKm, calculateDistanceKm. cbn [lat lng]. cbv zeta.
    rewrite (mul_self_abs _ _ (sub_swap (lat prevPoint) (lat currPoint))).
    rewrite (mul_self_abs _ _ (sub_swap (lng prevPoint) (lng currPoint))).
    reflexivity. }
  rewrite Hkm. reflexivity.
Qed.

End MoreSpeed.

Lemma calculateSpeedKmH_stationary_witness :
  (1 <= 1
   /\ index [startPoint; mkPoint (ofZ 0) (ofZ 0) (Some "2024-01-01T01:00:00Z"%string)]
        (1 - 1) = Some startPoint
   /\ 1704067200000 < 1704070800000)
  /\ calculateSpeedKmH IsoDate.parse 1
       [startPoint; mkPoint (ofZ 0) (ofZ 0) (Some "2024-01-01T01:00:00Z"%string)]
     = "0.00"%string.
Proof.
  split; [repeat split; solve [lia | reflexivity]|].
  apply (calculateSpeedKmH_stationary IsoDate.parse 1 _ startPoint
           (mkPoint (ofZ 0) (ofZ 0) (Some "2024-01-01T01:00:00Z"%string))
           1704067200000 1704070800000);
    solve [lia | vm_compute; reflexivity].
Defined.


(** Three points, and the same three with the coordinates of the last
    two exchanged. *)
Definition threeLegs : list RoutePoint :=
  [startPoint; hourLaterPoint;
   mkPoint (ofDecimal 5 3) (ofDecimal 2 3) (Some "2024-01-01T01:30:00Z"%string)].

Definition threeLegsSwapped : list RoutePoint :=
  [startPoint;
   mkPoint (ofDecimal 5 3) (ofDecimal 2 3) (Some "2024-01-01T01:00:00Z"%string);
   mkPoint (ofDecimal 1 3) (ofDecimal 1 3) (Some "2024-01-01T01:30:00Z"%string)].

Lemma calculateSpeedKmH_direction_witness :
  (1 <= 2
   /\ index threeLegs (2 - 1) = Some hourLaterPoint
   /\ index threeLegsSwapped 2
      = Some (mkPoint (ofDecimal 1 3) (ofDecimal 1 3)
                (Some "2024-01-01T01:30:00Z"%string)))
  /\ calculateSpeedKmH IsoDate.parse 2 threeLegsSwapped
     = calculateSpeedKmH IsoDate.parse 2 threeLegs
  /\ calculateSpeedKmH IsoDate.parse 2 threeLegs = "0.92"%string.
Proof.
  split; [repeat split; solve [lia | reflexivity]|].
  split; [|vm_compute; reflexivity].
  apply (calculateSpeedKmH_direction IsoDate.parse 2 threeLegs threeLegsSwapped
           hourLaterPoint
           (mkPoint (ofDecimal 5 3) (ofDecimal 2 3)
              (Some "2024-01-01T01:30:00Z"%string)));
    solve [lia | reflexivity].
Defined.

(** ** The sign of the readout *)

Section NoMinus.
Variable Date_parse : string -> option Z.

Lemma decimalDigits_first (n : Z) :
  exists c rest, decimalDigits n = String c rest /\ c <> "-"%char.
Proof.
  unfold decimalDigits, NilZero.string_of_uint.
  destruct (N.to_uint (Z.to_N n)); cbn [NilEmpty.string_of_uint];
    eexists _, _; (split; [reflexivity | discriminate]).
Qed.

Lemma substring_first (c : ascii) (rest : string) (k : nat) :
  substring 0 (S k) (String c rest) = String c (substring 0 k rest).
Proof. reflexivity. Qed.

Lemma fixedNotation_first (n : Z) :
  exists c rest, fixedNotation n 2 = String c rest /\ c <> "-"%char.
Proof.
  unfold fixedNotation.
  destruct (decimalDigits_first n) as (c & rest & Hd & Hc). rewrite Hd.
  set (m := if (String.length (String c rest) <=? 2)%nat
            then (zeros (2 + 1 - String.length (String c rest))
                  ++ String c rest)%string
            else String c rest).
  assert (Hm : exists c' rest', m = String c' rest' /\ c' <> "-"%char
                                /\ (2 <= String.length rest')%nat).
  { unfold m. destruct (Nat.leb_spec (String.length (String c rest)) 2) as [Hle | Hgt].
    - cbn [String.length] in Hle.
      destruct rest as [|c1 [|c2 rest2]]; cbn in Hle; try lia.
      + exists "0"%char, (String "0" (String c EmptyString)).
        repeat split; [discriminate | cbn; lia].
      + exists "0"%char, (String c (String c1 EmptyString)).
        repeat split; [discriminate | cbn; lia].
    - exists c, rest. cbn [String.length] in Hgt. repeat split; [assumption | lia]. }
  destruct Hm as (c' & rest' & -> & Hc' & Hlen).
  cbn [String.length].
  replace (S (String.length rest') - 2)%nat
    with (S (String.length rest' - 2)) by lia.
  rewrite substring_first.
  eexists _, _. split; [reflexivity | exact Hc'].
Qed.

Lemma exponentialNotation_first (m : positive) (e : Z) :
  exists c rest, exponentialNotation m e = String c rest /\ c <> "-"%char.
Proof.
  unfold exponentialNotation.
  destruct (shortestFrom m e 17 1) as [s k].
  destruct (decimalDigits_first s) as (c & rest & -> & Hc).
  destruct rest as [|c1 rest1]; eexists _, _; (split; [reflexivity | exact Hc]).
Qed.

(** [toFixed(2)] of NaN or of a number that is at least zero does not
    begin with a minus sign. *)
Lemma toFixed_first (x : number) :
  isNaN x = true \/ nonNegative x = true ->
  firstChar (toFixed x 2) <> Some "-"%char.
Proof.
  intros Hx.
  destruct x as [s | [] | | [] m e]; cbn [toFixed]; try discriminate;
    try (destruct Hx as [Hx | Hx]; discriminate).
  destruct (atLeast1e21 m e).
  - destruct (exponentialNotation_first m e) as (c & rest & -> & Hc).
    change (Some c <> Some "-"%char). intros [= H]. exact (Hc H).
  - destruct (fixedNotation_first (scaledNearest m e (Z.of_nat 2)))
      as (c & rest & -> & Hc).
    change (Some c <> Some "-"%char). intros [= H]. exact (Hc H).
Qed.

(** X6.  Whatever the route and the index, the speed readout never
    begins with a minus sign. *)
Theorem calculateSpeedKmH_no_minus (i : Z) (route : list RoutePoint) :
  firstChar (calculateSpeedKmH Date_parse i route) <> Some "-"%char.
Proof.
  destruct (calculateSpeedKmH_readout Date_parse i route)
    as [-> | [-> | (speed & -> & Hspeed)]]; try discriminate.
  apply toFixed_first. exact Hspeed.
Qed.

End NoMinus.

(** ** Timers and playback, whatever route arrives *)

Section MorePlayback.

Lemma step_index_nonneg e s s' :
  0 <= currentIndex s -> step e s = Some s' -> 0 <= currentIndex s'.
Proof.
  intros Hidx. unfold step.
  destruct (dispatch e s) as [new|] eqn:Hd; [|discriminate].
  intros [= <-]. destruct (commit_fields e s new) as (_ & -> & _).
  destruct e as [| | |o]; cbn [dispatch] in Hd.
  - injection Hd as <-. exact Hidx.
  - injection Hd as <-. cbn. lia.
  - destruct (decide (timers s = ∅)); [discriminate|].
    injection Hd as <-. cbn. lia.
  - injection Hd as <-. destruct o; exact Hidx.
Qed.

Lemma run_index_nonneg events : forall s s',
  0 <= currentIndex s -> run events s = Some s' -> 0 <= currentIndex s'.
Proof.
  induction events as [|e rest IH]; intros s s' Hidx; cbn [run].
  - now intros [= <-].
  - destruct (step e s) as [s1|] eqn:Hstep; [|discriminate].
    apply IH. exact (step_index_nonneg _ _ _ Hidx Hstep).
Qed.

Lemma invariant_scheduled s :
  timerInvariant s -> armed s = true ->
  exists id, timers s = {[ id ]} /\ intervalRef s = Some id.
Proof.
  intros [Href Harmed] Hon.
  assert (Hne : timers s <> ∅) by (apply Harmed; exact Hon).
  apply set_choose_L in Hne as [id Hid].
  exists id. split; [|exact (Href id Hid)].
  apply set_eq. intros id'. rewrite elem_of_singleton. split.
  - intros Hid'. apply Href in Hid, Hid'. congruence.
  - now intros ->.
Qed.

(** X7.  In every state the mounted component can reach, exactly one
    timer is scheduled, the one [intervalRef] holds, when the component
    is playing and points are left after the current one; otherwise
    none is. *)
Theorem timer_scheduled_iff_playing (events : list Event) (s : State) :
  run events initialState = Some s ->
  if isPlaying s && (0 <? jsLength (routeData s))
     && (currentIndex s <? jsLength (routeData s) - 1)
  then exists id, timers s = {[ id ]} /\ intervalRef s = Some id
  else timers s = ∅.
Proof.
  intros Hrun.
  pose proof (run_invariant _ _ _ initialState_invariant Hrun) as Hinv.
  change (isPlaying s && (0 <? jsLength (routeData s))
          && (currentIndex s <? jsLength (routeData s) - 1)) with (armed s).
  destruct (armed s) eqn:Harmed.
  - exact (invariant_scheduled s Hinv Harmed).
  - exact (invariant_idle s Hinv Harmed).
Qed.

(** X8.  Pausing cancels the timer: after a click on the button of a
    playing component, [isPlaying] is false, the index and the route
    are as before, nothing is scheduled and no tick can follow. *)
Theorem pause_cancels (events : list Event) (s : State) :
  run events initialState = Some s -> isPlaying s = true ->
  exists s', step ClickPlayPause s = Some s'
    /\ isPlaying s' = false /\ currentIndex s' = currentIndex s
    /\ routeData s' = routeData s /\ timers s' = ∅ /\ step Tick s' = None.
Proof.
  intros Hrun Hplay.
  pose proof (run_invariant _ _ _ initialState_invariant Hrun) as Hinv.
  set (new := setIsPlaying (negb (isPlaying s)) s).
  set (s' := commit ClickPlayPause s new).
  assert (Hstep : step ClickPlayPause s = Some s') by reflexivity.
  pose proof (step_invariant _ _ _ Hinv Hstep) as Hinv'.
  destruct (commit_fields ClickPlayPause s new) as (Hd & Hi & Hp & _).
  fold s' in Hd, Hi, Hp.
  change (routeData new) with (routeData s) in Hd.
  change (currentIndex new) with (currentIndex s) in Hi.
  change (isPlaying new) with (negb (isPlaying s)) in Hp.
  rewrite Hplay in Hp. cbn [negb] in Hp.
  assert (Hnone : timers s' = ∅).
  { apply (invariant_idle s' Hinv'). unfold armed. now rewrite Hp. }
  exists s'. repeat split; try assumption.
  unfold step. cbn [dispatch].
  destruct (decide (timers s' = ∅)); [reflexivity | contradiction].
Qed.

(** X9.  Unmounting leaves no timer behind, in whatever state the
    component was. *)
Theorem unmount_cancels (events : list Event) (s : State) :
  run events initialState = Some s ->
  timers (unmount s) = ∅
  /\ routeData (unmount s) = routeData s
  /\ currentIndex (unmount s) = currentIndex s
  /\ isPlaying (unmount s) = isPlaying s.
Proof.
  intros Hrun.
  pose proof (run_invariant _ _ _ initialState_invariant Hrun) as [Href _].
  unfold unmount. split; [exact (playbackCleanup_clears s Href)|].
  destruct (playbackCleanup_fields s) as (-> & -> & -> & _). tauto.
Qed.

(** X10.  The index is never negative, and a tick never takes it past
    the last point of the route in place, even after the route has been
    replaced: a tick happens only while playing, adds one, and lands on
    a point of the route, which becomes the current position. *)
Theorem tick_lands_on_route (events : list Event) (s : State) :
  run events initialState = Some s ->
  0 <= currentIndex s
  /\ forall s', step Tick s = Some s' ->
       isPlaying s = true
       /\ routeData s' = routeData s
       /\ currentIndex s' = currentIndex s + 1
       /\ currentIndex s' <= jsLength (routeData s') - 1
       /\ exists point, index (routeData s') (currentIndex s') = Some point
                        /\ currentPosition s' = point.
Proof.
  intros Hrun.
  pose proof (run_invariant _ _ _ initialState_invariant Hrun) as [_ Harmed].
  pose proof (run_index_nonneg events initialState s ltac:(cbn; lia) Hrun) as Hidx.
  split; [exact Hidx|]. intros s'. unfold step. cbn [dispatch].
  destruct (decide (timers s = ∅)) as [|Hlive]; [discriminate|].
  intros [= <-].
  destruct (commit_fields Tick s (setCurrentIndex (currentIndex s + 1) s))
    as (Hd & Hi & _).
  cbn [routeData currentIndex setCurrentIndex] in Hd, Hi.
  apply Harmed in Hlive. unfold armed in Hlive.
  apply andb_prop in Hlive as [Hlive Hlt]. apply andb_prop in Hlive as [Hplay _].
  apply Z.ltb_lt in Hlt.
  split; [exact Hplay|]. split; [exact Hd|]. split; [exact Hi|].
  split; [rewrite Hd, Hi; lia|].
  unfold currentPosition. rewrite Hd, Hi. unfold index.
  replace (currentIndex s + 1 <? 0) with false by (symmetry; apply Z.ltb_ge; lia).
  destruct (lookup_lt_is_Some_2 (routeData s) (Z.to_nat (currentIndex s + 1)))
    as [point Hpoint]; [unfold jsLength in Hlt; lia|].
  rewrite Hpoint. exists point. split; reflexivity.
Qed.


End MorePlayback.

(** ** A full playback *)

Section FullPlayback.

Lemma run_app (l1 l2 : list Event) : forall s,
  run (l1 ++ l2) s
  = match run l1 s with
    | Some s' => run l2 s'
    | None => None
    end.
Proof.
  induction l1 as [|e rest IH]; intros s; cbn [app run]; [reflexivity|].
  destruct (step e s) as [s1|]; [apply IH | reflexivity].
Qed.

Lemma ticks_advance (r : list RoutePoint) (k : nat) : forall s,
  routeData s = r -> isPlaying s = true -> timerInvariant s ->
  0 <= currentIndex s ->
  ((0 < k)%nat -> currentIndex s + Z.of_nat k <= jsLength r - 1) ->
  exists s', run (replicate k Tick) s = Some s'
    /\ currentIndex s' = currentIndex s + Z.of_nat k
    /\ isPlaying s' = true /\ routeData s' = r /\ timerInvariant s'.
Proof.
  induction k as [|k IH]; intros s Hdata Hplay Hinv Hlo Hend; cbn [replicate run].
  - exists s. split; [reflexivity|]. split; [lia|].
    split; [assumption|]. split; assumption.
  - specialize (Hend ltac:(lia)).
    assert (Harmed : armed s = true).
    { unfold armed. rewrite Hplay, Hdata. cbn [andb].
      apply andb_true_intro. split; apply Z.ltb_lt; lia. }
    assert (Hlive : timers s <> ∅) by (apply Hinv; exact Harmed).
    set (new := setCurrentIndex (currentIndex s + 1) s).
    assert (Hstep : step Tick s = Some (commit Tick s new)).
    { unfold step. cbn [dispatch].
      destruct (decide (timers s = ∅)); [contradiction | reflexivity]. }
    rewrite Hstep.
    destruct (commit_fields Tick s new) as (Hd1 & Hi1 & Hp1 & _).
    change (routeData new) with (routeData s) in Hd1.
    change (currentIndex new) with (currentIndex s + 1) in Hi1.
    change (isPlaying new) with (isPlaying s) in Hp1.
    destruct (IH (commit Tick s new)) as (s' & Hrun & Hi' & Hp' & Hd' & Hinv').
    + rewrite Hd1. exact Hdata.
    + rewrite Hp1. exact Hplay.
    + exact (step_invariant _ _ _ Hinv Hstep).
    + rewrite Hi1. lia.
    + intros _. rewrite Hi1. lia.
    + exists s'. split; [assumption|]. split; [rewrite Hi', Hi1; lia|].
      split; [assumption|]. split; assumption.
Qed.

Lemma play_from_start (r : list RoutePoint) :
  exists s1, step ClickPlayPause (loadedState r) = Some s1
    /\ routeData s1 = r /\ currentIndex s1 = 0 /\ isPlaying s1 = true
    /\ timerInvariant s1.
Proof.
  set (new := setIsPlaying (negb (isPlaying (loadedState r))) (loadedState r)).
  set (s1 := commit ClickPlayPause (loadedState r) new).
  assert (Hstep : step ClickPlayPause (loadedState r) = Some s1) by reflexivity.
  pose proof (step_invariant _ _ _ (loadedState_invariant r) Hstep) as Hinv1.
  destruct (commit_fields ClickPlayPause (loadedState r) new)
    as (Hd1 & Hi1 & Hp1 & _).
  exists s1. split; [assumption|]. split; [assumption|].
  split; [assumption|]. split; assumption.
Qed.

(** X12.  Started from the first point of a route, playback takes as
    many ticks as there are points after the first: after [k] of them
    the index is [k], and once the last point is reached no further
    tick can happen. *)
Theorem playback_tick_count (r : list RoutePoint) (k : nat) :
  if (k <=? length r - 1)%nat
  then exists s,
         run (ClickPlayPause :: replicate k Tick) (loadedState r) = Some s
         /\ currentIndex s = Z.of_nat k /\ isPlaying s = true /\ routeData s = r
  else run (ClickPlayPause :: replicate k Tick) (loadedState r) = None.
Proof.
  destruct (play_from_start r) as (s1 & Hstep & Hd1 & Hi1 & Hp1 & Hinv1).
  cbn [run]. rewrite Hstep.
  destruct (Nat.leb_spec k (length r - 1)) as [Hle | Hgt].
  - destruct (ticks_advance r k s1 Hd1 Hp1 Hinv1 ltac:(lia))
      as (s & Hrun & Hi & Hp & Hd & _).
    { intros Hk. rewrite Hi1. unfold jsLength. lia. }
    exists s. repeat split; try assumption. rewrite Hi, Hi1. lia.
  - replace k with ((length r - 1) + S (k - S (length r - 1)))%nat at 1 by lia.
    rewrite replicate_add, run_app.
    destruct (ticks_advance r (length r - 1) s1 Hd1 Hp1 Hinv1 ltac:(lia))
      as (s & -> & Hi & Hp & Hd & Hinv).
    { intros Hk. rewrite Hi1. unfold jsLength. lia. }
    cbn [replicate run].
    assert (Hnone : timers s = ∅).
    { apply (invariant_idle s Hinv). unfold armed. rewrite Hd, Hi, Hi1.
      destruct r as [|p r'].
      - cbn. apply andb_false_r.
      - replace (0 + Z.of_nat (length (p :: r') - 1) <? jsLength (p :: r') - 1)
          with false; [apply andb_false_r|].
        symmetry. apply Z.ltb_ge. unfold jsLength. cbn [length]. lia. }
    unfold step. cbn [dispatch].
    destruct (decide (timers s = ∅)); [reflexivity | contradiction].
Qed.

End FullPlayback.

(** ** A route that arrives *)

Section Loading.

Lemma index_map {A B : Type} (f : A -> B) (arr : list A) (i : Z) :
  index (map f arr) i = f <$> index arr i.
Proof.
  unfold index. destruct (i <? 0); [reflexivity|].
  generalize (Z.to_nat i). clear i.
  induction arr as [|x rest IH]; intros [|n]; try reflexivity.
  apply IH.
Qed.


(** X14.  Pressing Play before the route has arrived and pressing it
    after lead to the same state: the click made over the empty route
    is not lost. *)
Theorem play_and_load_commute (data : list Resource.Point) :
  run [ClickPlayPause; LoadSettled (Fetched data)] initialState
  = run [LoadSettled (Fetched data); ClickPlayPause] initialState.
Proof.
  set (loaded := consoleWrite (ConsoleLog "VehicleMap component rendered")
                  (setRouteData (map normalize data) initialState)).
  assert (Hplay : step ClickPlayPause initialState
                  = Some (setIsPlaying true initialState)) by reflexivity.
  assert (Hload : step (LoadSettled (Fetched data)) initialState = Some loaded)
    by reflexivity.
  assert (Hthen : step (LoadSettled (Fetched data)) (setIsPlaying true initialState)
                  = Some (playbackEffect (setIsPlaying true loaded)))
    by reflexivity.
  assert (Hafter : step ClickPlayPause loaded
                   = Some (playbackEffect (setIsPlaying true loaded)))
    by reflexivity.
  cbn [run]. rewrite Hplay, Hthen, Hload, Hafter. reflexivity.
Qed.

End Loading.

(** ** The view *)

Section MoreView.
Variable Date_parse : string -> option Z.
Variable toLocaleTimeString : Z -> string.

(** X15.  Over an empty route, whatever the index and the playing flag,
    no polyline is drawn, the marker is at [(0, 0)], and the panel reads
    "0.000000, 0.000000", "N/A" and "0.00 km/h". *)
Theorem render_empty_route (s : State) :
  routeData s = [] ->
  render Date_parse toLocaleTimeString s
  = mkView None (ofZ 0, ofZ 0) "0.000000, 0.000000" "N/A" "0.00 km/h"
           (if isPlaying s then "Pause" else "Play")
           (if isPlaying s then "#ef4444" else "#22c55e").
Proof.
  intros Hempty. unfold render, currentPosition, calculateSpeedKmH.
  rewrite Hempty.
  replace (index [] (currentIndex s)) with (@None RoutePoint)
    by (unfold index; destruct (currentIndex s <? 0); reflexivity).
  change (jsLength (@nil RoutePoint) <=? 1) with true.
  rewrite orb_true_r. reflexivity.
Qed.

(** X16.  While a non-empty route is played, paused and reset, the
    polyline is drawn and the marker sits on one of its vertices: the
    one at [currentIndex], which is the position of that route point. *)
Theorem marker_on_polyline (r : list RoutePoint) (events : list Event) (s : State) :
  r <> [] ->
  forallb playbackEvent events = true ->
  run events (loadedState r) = Some s ->
  polyline (render Date_parse toLocaleTimeString s) = Some (fullRouteCoords r)
  /\ index (fullRouteCoords r) (currentIndex s)
     = Some (marker (render Date_parse toLocaleTimeString s))
  /\ exists point, index r (currentIndex s) = Some point
       /\ currentPosition s = point.
Proof.
  intros Hr Hev Hrun.
  assert (Hlen : 1 <= jsLength r)
    by (destruct r; [contradiction | unfold jsLength; cbn [length]; lia]).
  destruct (run_playback r events (loadedState r) s Hev Hr eq_refl
              ltac:(cbn; lia) (loadedState_invariant r) Hrun)
    as (Hdata & Hidx & _).
  assert (Hpoint : exists point, index r (currentIndex s) = Some point).
  { unfold index.
    replace (currentIndex s <? 0) with false by (symmetry; apply Z.ltb_ge; lia).
    apply lookup_lt_is_Some_2. unfold jsLength in *. lia. }
  destruct Hpoint as [point Hpoint].
  unfold render, currentPosition. cbn [polyline marker]. rewrite Hdata, Hpoint.
  split; [|split].
  - replace (0 <? jsLength r) with true by (symmetry; apply Z.ltb_lt; lia).
    reflexivity.
  - unfold fullRouteCoords. rewrite index_map, Hpoint. reflexivity.
  - exists point. split; reflexivity.
Qed.

End MoreView.

(** ** Timestamps that are not dates *)

Section NotADate.
Variable Date_parse : string -> option Z.

(** A string that cannot be read, or that reads as an instant more than
    [MAX_TIME] milliseconds from the epoch. *)
Definition notADate (v : option string) : Prop :=
  exists str, v = Some str
    /\ (Date_parse str = None
        \/ exists t, Date_parse str = Some t /\ MAX_TIME < Z.abs t).

Lemma notADate_timeValue (v : option string) :
  notADate v -> timeValue Date_parse v = None.
Proof.
  intros (str & -> & [Hnone | (t & Hsome & Hfar)]); cbn [timeValue].
  - rewrite Hnone. reflexivity.
  - rewrite Hsome. cbn [TimeClip].
    replace (Z.abs t <=? MAX_TIME) with false
      by (symmetry; apply Z.leb_gt; exact Hfar).
    reflexivity.
Qed.

(** X4.  When the timestamp of the current point or of the one before
    it is not a date, the readout is the string "NaN", whatever the
    coordinates. *)
Theorem calculateSpeedKmH_not_a_date (i : Z) (route : list RoutePoint)
    (prevPoint currPoint : RoutePoint) :
  1 <= i ->
  index route (i - 1) = Some prevPoint ->
  index route i = Some currPoint ->
  notADate (timestamp prevPoint) \/ notADate (timestamp currPoint) ->
  calculateSpeedKmH Date_parse i route = "NaN"%string.
Proof.
  intros Hi Hprev Hcurr Hbad.
  apply (calculateSpeedKmH_invalid_date Date_parse i route prevPoint currPoint);
    try assumption.
  destruct Hbad as [H | H]; [left | right]; exact (notADate_timeValue _ H).
Qed.

End NotADate.

(** * More scenarios *)

Lemma calculateSpeedKmH_not_a_date_witness :
  (1 <= 1
   /\ notADate IsoDate.parse (Some "yesterday"%string))
  /\ calculateSpeedKmH IsoDate.parse 1
       [mkPoint (ofZ 0) (ofZ 0) (Some "yesterday"%string); hourLaterPoint]
     = "NaN"%string.
Proof.
  assert (Hbad : notADate IsoDate.parse (Some "yesterday"%string))
    by (exists "yesterday"%string; split; [reflexivity | left; reflexivity]).
  split; [split; [lia | exact Hbad]|].
  apply (calculateSpeedKmH_not_a_date IsoDate.parse 1 _
           (mkPoint (ofZ 0) (ofZ 0) (Some "yesterday"%string)) hourLaterPoint);
    [lia | reflexivity | reflexivity | left; exact Hbad].
Defined.

(** The route of scenario A has arrived and Play has been pressed. *)
Definition playingEvents : list Event :=
  [LoadSettled (Fetched scenarioAResource); ClickPlayPause].

Lemma timer_scheduled_iff_playing_witness :
  exists s, run playingEvents initialState = Some s
    /\ exists id, timers s = {[ id ]} /\ intervalRef s = Some id.
Proof.
  eexists. split; [vm_compute; reflexivity|].
  exact (timer_scheduled_iff_playing playingEvents _ ltac:(vm_compute; reflexivity)).
Defined.

Lemma pause_cancels_witness :
  exists s, run playingEvents initialState = Some s
    /\ isPlaying s = true
    /\ exists s', step ClickPlayPause s = Some s'
         /\ isPlaying s' = false /\ timers s' = ∅ /\ step Tick s' = None.
Proof.
  eexists. split; [vm_compute; reflexivity|]. split; [reflexivity|].
  destruct (pause_cancels playingEvents _ ltac:(vm_compute; reflexivity) eq_refl)
    as (s' & Hstep & Hp & _ & _ & Ht & Htick).
  exists s'. repeat split; assumption.
Defined.

Lemma unmount_cancels_witness :
  exists s, run playingEvents initialState = Some s
    /\ timers s <> ∅ /\ timers (unmount s) = ∅.
Proof.
  eexists. split; [vm_compute; reflexivity|].
  split; [vm_compute; discriminate|].
  apply (unmount_cancels playingEvents). vm_compute. reflexivity.
Defined.

Lemma tick_lands_on_route_witness :
  exists s, run playingEvents initialState = Some s
    /\ 0 <= currentIndex s
    /\ exists s', step Tick s = Some s' /\ currentIndex s' = 1.
Proof.
  eexists. split; [vm_compute; reflexivity|].
  split.
  - apply (tick_lands_on_route playingEvents). vm_compute. reflexivity.
  - eexists. split; [vm_compute; reflexivity | reflexivity].
Defined.



Lemma render_empty_route_witness :
  routeData (setIsPlaying true initialState) = []
  /\ speedText (render IsoDate.parse (fun _ => "12:00:00 AM"%string)
                  (setIsPlaying true initialState))
     = "0.00 km/h"%string.
Proof.
  split; [reflexivity|].
  rewrite (render_empty_route IsoDate.parse (fun _ => "12:00:00 AM"%string)
             (setIsPlaying true initialState) eq_refl).
  reflexivity.
Defined.

Lemma marker_on_polyline_witness :
  (scenarioA <> [] /\ forallb playbackEvent [ClickPlayPause; Tick] = true)
  /\ exists s, run [ClickPlayPause; Tick] (loadedState scenarioA) = Some s
       /\ polyline (render IsoDate.parse (fun _ => "12:00:00 AM"%string) s)
          = Some (fullRouteCoords scenarioA).
Proof.
  split; [split; [discriminate | reflexivity]|].
  eexists. split; [vm_compute; reflexivity|].
  apply (marker_on_polyline IsoDate.parse (fun _ => "12:00:00 AM"%string)
           scenarioA [ClickPlayPause; Tick]);
    [discriminate | reflexivity | vm_compute; reflexivity].
Defined.
